(** * Dataflow IPython functionality: a shallow embedding of
      [sdk/pygcp/gcp/interactive/_dataflow.py]

    The development follows the source class by class: the two pipeline
    visitors ([DataflowDataCollector], [DataflowGraphBuilder]), the
    in-memory catalog ([DataflowLocalCatalog]), the two executors and the
    two line magics.  Python objects that are shared and mutated (the
    graph-node dicts, the lists bound in the notebook namespace) live in
    explicit stores and are addressed by reference. *)

From stdpp Require Import gmap strings list fin_maps.
From Stdlib Require Import ZArith Lia Ascii.

Set Warnings "-register-all".

Local Open Scope string_scope.
Local Open Scope list_scope.

(** ** Python values, exceptions and results *)

Module Py.

(** A reference into a store of mutable objects. *)
Abbreviation ref := nat.

(** The values of the notebook namespace and of collections.  [VList]
    is a reference to an object whose type is exactly [list];
    [VFunction] carries the names that [inspect.getargspec] lists;
    [VClass] is a new-style class with the names of the classes of its
    method resolution order; [VObject] is an instance of any other
    class (its type is not [list] and it is not callable). *)
Inductive PyVal :=
| VNone
| VInt (z : Z)
| VStr (s : string)
| VList (data : ref)
| VFunction (func_name : string) (argnames : list string)
| VClass (cls_name : string) (mro : list string)
| VModule (dict : list (string * PyVal))
| VObject (cls_name : string) (repr : string)
| VListSource (data : ref)
| VListSink (data : ref).

Inductive ExcType :=
| Exception_
| TypeError
| KeyError
| IndexError
| AttributeError.

(** A raised exception: its class and what [e.message] holds.  In
    Python 2 that is the sole argument the exception was constructed
    with, of whatever type, so it need not be a string: the failed
    lookup [d[3]] raises [KeyError(3)], whose message is the number 3. *)
Record PyException := raised { exc_type : ExcType; message : PyVal }.

(** [T(s)] for a string [s], the form of every [raise] of the source
    file. *)
Abbreviation mkException ty s := (raised ty (VStr s)).

Inductive Result (A : Type) :=
| Ok (a : A)
| Raise (e : PyException).
Arguments Ok {A} a.
Arguments Raise {A} e.

Definition bind {A B} (m : Result A) (k : A -> Result B) : Result B :=
  match m with
  | Ok a => k a
  | Raise e => Raise e
  end.

(** [for x in xs: acc = step(acc, x)], stopping at the first raise. *)
Fixpoint for_each {A S} (step : S -> A -> Result S) (xs : list A) (s : S)
  : Result S :=
  match xs with
  | [] => Ok s
  | x :: xs' => bind (step s x) (for_each step xs')
  end.

Definition is_none (v : PyVal) : bool :=
  match v with VNone => true | _ => false end.

(** [d.get(key, None)] on a dict kept as an association list. *)
Fixpoint dict_get (key : string) (d : list (string * PyVal)) : PyVal :=
  match d with
  | [] => VNone
  | (k, v) :: d' => if String.eqb k key then v else dict_get key d'
  end.

(** [callable(v)]. *)
Definition callable (v : PyVal) : bool :=
  match v with
  | VFunction _ _ | VClass _ _ => true
  | _ => false
  end.

Definition dquote : string := String (ascii_of_nat 34) EmptyString.

(** [inspect.getargspec(v)[0]]: the argument names of a Python
    function; anything else is refused with a TypeError. *)
Definition getargspec (v : PyVal) : Result (list string) :=
  match v with
  | VFunction _ argnames => Ok argnames
  | _ => Raise (mkException TypeError "arg is not a Python function")
  end.

(** [s.rfind(c)]: the highest index at which [c] occurs, or -1. *)
Fixpoint rfind_from (c : ascii) (s : string) (i acc : Z) : Z :=
  match s with
  | EmptyString => acc
  | String a s' =>
      rfind_from c s' (i + 1)%Z (if Ascii.eqb a c then i else acc)
  end.

Definition rfind (c : ascii) (s : string) : Z := rfind_from c s 0%Z (-1)%Z.

(** [s[n:]] for a non-negative [n]. *)
Fixpoint slice_from (n : nat) (s : string) : string :=
  match n, s with
  | O, _ => s
  | S _, EmptyString => EmptyString
  | S n', String _ s' => slice_from n' s'
  end.

(** [s.split(c)], used only to state what a path segment is. *)
Fixpoint split (c : ascii) (s : string) : list string :=
  match s with
  | EmptyString => [EmptyString]
  | String a s' =>
      if Ascii.eqb a c then EmptyString :: split c s'
      else match split c s' with
           | [] => [String a EmptyString]
           | seg :: segs => String a seg :: segs
           end
  end.

End Py.
Import Py.

Notation "x <- m ;; k" := (Py.bind m (fun x => k))
  (at level 100, m at next level, right associativity).

Definition slash : ascii := ascii_of_nat 47.

(** ** The pipeline, as the visitors see it *)

(** The classes of [df.pvalue] by identity: the base class, the
    collection class, and classes derived from another one. *)
Inductive PValueClass :=
| PValue_class
| PCollection_class
| Derived_class (cls_name : string) (base : PValueClass).

Fixpoint pvalue_class_eqb (a b : PValueClass) : bool :=
  match a, b with
  | PValue_class, PValue_class => true
  | PCollection_class, PCollection_class => true
  | Derived_class n a', Derived_class m b' =>
      String.eqb n m && pvalue_class_eqb a' b'
  | _, _ => false
  end.

(** [issubclass(c, PCollection)]. *)
Fixpoint is_pcollection_subclass (c : PValueClass) : bool :=
  match c with
  | PValue_class => false
  | PCollection_class => true
  | Derived_class _ base => is_pcollection_subclass base
  end.

(** A value of the pipeline: [type(value)], [value.producer.full_label]
    and the sequence that [value.get()] yields once the pipeline ran. *)
Record PValue := mkPValue {
  value_type : PValueClass;
  producer_label : string;
  get : list PyVal
}.

Inductive TransformNode :=
| Transform (label : string) (ins outs : list PValue)
| Composite (label : string) (ins outs : list PValue)
            (parts : list TransformNode).

Definition full_label (t : TransformNode) : string :=
  match t with
  | Transform l _ _ | Composite l _ _ _ => l
  end.

Definition inputs (t : TransformNode) : list PValue :=
  match t with
  | Transform _ i _ | Composite _ i _ _ => i
  end.

(** The pipeline is its root composite, whose label is empty. *)
Record Pipeline := mkPipeline { root_parts : list TransformNode }.

Definition root (p : Pipeline) : TransformNode :=
  Composite EmptyString [] [] (root_parts p).

(** What a [PipelineVisitor] is called back with. *)
Inductive Event :=
| EnterComposite (transform_node : TransformNode)
| LeaveComposite (transform_node : TransformNode)
| VisitTransform (transform_node : TransformNode)
| VisitValue (value : PValue) (producer_node : TransformNode).

(** Modelled from the spec: [Pipeline.visit] of [gcp.dataflow], which is
    not part of the source file.  The traversal is depth first; a
    composite is entered, its parts are visited in order, and it is left;
    a leaf is visited; every value a node produced is reported once with
    its producer. *)
Fixpoint visit_node (t : TransformNode) : list Event :=
  match t with
  | Transform _ _ outs =>
      VisitTransform t :: map (fun v => VisitValue v t) outs
  | Composite _ _ outs ps =>
      EnterComposite t :: flat_map visit_node ps
        ++ LeaveComposite t :: map (fun v => VisitValue v t) outs
  end.

Definition pipeline_visit (p : Pipeline) : list Event := visit_node (root p).

(** The transform applications of a pipeline, composite and leaf, in the
    order of the traversal; the root composite is not one of them. *)
Fixpoint applications (t : TransformNode) : list TransformNode :=
  match t with
  | Transform _ _ _ => [t]
  | Composite _ _ _ ps => t :: flat_map applications ps
  end.

Definition pipeline_applications (p : Pipeline) : list TransformNode :=
  flat_map applications (root_parts p).

(** ** [class DataflowDataCollector] *)

Module DataflowDataCollector.

(** The dict that [visit_value] stores under a producer's label. *)
Record Collection := mkCollection { count : nat; data : list PyVal }.

(** [self._data]. *)
Abbreviation t := (gmap string Collection).

Definition init : t := ∅.

Definition visit_value (value : PValue) (producer_node : TransformNode)
  (self : t) : t :=
  if pvalue_class_eqb (value_type value) PCollection_class then
    let items := get value in
    let collection := {| count := length items; data := take 25 items |} in
    <[full_label producer_node := collection]> self
  else self.

(** The callbacks the class does not override do nothing. *)
Definition on_event (e : Event) (self : t) : t :=
  match e with
  | VisitValue value producer_node => visit_value value producer_node self
  | _ => self
  end.

Definition visit (pipeline : Pipeline) : t :=
  foldl (fun self e => on_event e self) init (pipeline_visit pipeline).

End DataflowDataCollector.

(** ** [class DataflowGraphBuilder] *)

Module DataflowGraphBuilder.

(** A graph node is a dict that the node map, the node stack and its
    parent's ['nodes'] list all refer to; the dicts live in a store and
    ['nodes'] holds references. *)
Record GraphNode := mkGraphNode {
  node_id : string;
  node_name : string;
  node_nodes : list ref;
  node_edges : list string
}.

Record t := mkBuilder {
  store : list GraphNode;
  _nodes : list ref;
  _node_stack : list ref;
  _node_map : gmap string ref
}.

Definition init : t :=
  {| store := []; _nodes := []; _node_stack := []; _node_map := ∅ |}.

(** [g.get('nodes').append(child)] and [g.get('edges').append(label)]. *)
Definition append_node (child : ref) (g : GraphNode) : GraphNode :=
  {| node_id := node_id g; node_name := node_name g;
     node_nodes := node_nodes g ++ [child]; node_edges := node_edges g |}.

Definition append_edge (label : string) (g : GraphNode) : GraphNode :=
  {| node_id := node_id g; node_name := node_name g;
     node_nodes := node_nodes g; node_edges := node_edges g ++ [label] |}.

(** Lines 57-61: the name shown for a label. *)
Definition display_name (label : string) : string :=
  let name := label in
  let slash_index := rfind slash name in
  if (slash_index >? 0)%Z then slice_from (Z.to_nat (slash_index + 1)) name
  else name.

(** One turn of the loop over [transform_node.inputs]. *)
Definition add_edge (node_map : gmap string ref) (label : string)
  (st : list GraphNode) (input_value : PValue) : Result (list GraphNode) :=
  match node_map !! producer_label input_value with
  | None => Raise (mkException KeyError (producer_label input_value))
  | Some parent_node => Ok (alter (append_edge label) parent_node st)
  end.

(** A raise abandons the builder: the exception leaves [visit], which
    holds the only reference to it. *)
Definition add_node (transform_node : TransformNode) (self : t)
  : Result (ref * t) :=
  let label := full_label transform_node in
  let name := display_name label in
  let graph_node := length (store self) in
  let st1 := store self ++
    [{| node_id := label; node_name := name;
        node_nodes := []; node_edges := [] |}] in
  let node_map := <[label := graph_node]> (_node_map self) in
  let '(nodes, st2) :=
    match last (_node_stack self) with
    | None => (_nodes self ++ [graph_node], st1)
    | Some top => (_nodes self, alter (append_node graph_node) top st1)
    end in
  st3 <- for_each (add_edge node_map label) (inputs transform_node) st2 ;;
  Ok (graph_node,
      {| store := st3; _nodes := nodes;
         _node_stack := _node_stack self; _node_map := node_map |}).

Definition enter_composite_transform (transform_node : TransformNode)
  (self : t) : Result t :=
  if Nat.eqb (String.length (full_label transform_node)) 0 then Ok self
  else
    added <- add_node transform_node self ;;
    let '(graph_node, self) := added in
    Ok {| store := store self; _nodes := _nodes self;
          _node_stack := _node_stack self ++ [graph_node];
          _node_map := _node_map self |}.

Definition leave_composite_transform (transform_node : TransformNode)
  (self : t) : Result t :=
  if Nat.eqb (String.length (full_label transform_node)) 0 then Ok self
  else
    match _node_stack self with
    | [] => Raise (mkException IndexError "pop from empty list")
    | _ => Ok {| store := store self; _nodes := _nodes self;
                 _node_stack := removelast (_node_stack self);
                 _node_map := _node_map self |}
    end.

Definition visit_transform (transform_node : TransformNode) (self : t)
  : Result t :=
  added <- add_node transform_node self ;;
  let '(_, self) := added in
  Ok self.

(** [visit_value] is inherited and does nothing. *)
Definition on_event (self : t) (e : Event) : Result t :=
  match e with
  | EnterComposite n => enter_composite_transform n self
  | LeaveComposite n => leave_composite_transform n self
  | VisitTransform n => visit_transform n self
  | VisitValue _ _ => Ok self
  end.

(** The graph as [json.dumps] walks it from [self._nodes]: every
    reference replaced by the dict it points to. *)
Inductive Graph :=
| Node (id name : string) (nodes : list Graph) (edges : list string).

Fixpoint mapM {A B} (f : A -> option B) (xs : list A) : option (list B) :=
  match xs with
  | [] => Some []
  | x :: xs' =>
      match f x, mapM f xs' with
      | Some y, Some ys => Some (y :: ys)
      | _, _ => None
      end
  end.

Fixpoint resolve (fuel : nat) (st : list GraphNode) (r : ref)
  : option Graph :=
  match fuel with
  | O => None
  | S fuel' =>
      match st !! r with
      | None => None
      | Some g =>
          match mapM (resolve fuel' st) (node_nodes g) with
          | None => None
          | Some kids => Some (Node (node_id g) (node_name g) kids
                                    (node_edges g))
          end
      end
  end.

(** [pipeline.visit(self); return self._nodes]: the returned list and the
    store its references point into. *)
Definition visit (pipeline : Pipeline) : Result (list ref * list GraphNode) :=
  self <- for_each on_event (pipeline_visit pipeline) init ;;
  Ok (_nodes self, store self).

(** The dicts form a forest in which a child is younger than its parent,
    so a fuel of one more than the number of dicts reaches every leaf;
    [None] would mean a dangling or cyclic reference. *)
Definition to_graph (returned : list ref * list GraphNode)
  : option (list Graph) :=
  let '(nodes, st) := returned in mapM (resolve (S (length st)) st) nodes.

(** All the nodes of a graph, parents before children. *)
Fixpoint graph_nodes (g : Graph) : list Graph :=
  match g with
  | Node _ _ kids _ => g :: flat_map graph_nodes kids
  end.

Definition graph_id (g : Graph) : string :=
  match g with Node i _ _ _ => i end.

Definition graph_name (g : Graph) : string :=
  match g with Node _ n _ _ => n end.

Definition graph_edges (g : Graph) : list string :=
  match g with Node _ _ _ e => e end.

End DataflowGraphBuilder.

(** ** The interactive session *)

(** The IPython user namespace, the list objects it refers to, and what
    has been written to [sys.stderr]. *)
Record World := mkWorld {
  user_ns : gmap string PyVal;
  lists : list (list PyVal);
  stderr : list string
}.

(** [ns.get(name, None)]. *)
Definition ns_get (name : string) (ns : gmap string PyVal) : PyVal :=
  default VNone (ns !! name).

Definition stderr_write (s : string) (w : World) : World :=
  {| user_ns := user_ns w; lists := lists w; stderr := stderr w ++ [s] |}.

(** The parsed arguments of a command, [vars(args)]. *)
Definition Args := list (string * PyVal).

(** ** [class DataflowLocalCatalog] *)

Module DataflowLocalCatalog.

Record t := mkCatalog {
  sources : gmap string PyVal;
  sinks : gmap string PyVal
}.

Definition empty : t := {| sources := ∅; sinks := ∅ |}.

Definition add_sink (name : string) (self : t) (w : World) : t * World :=
  let data := length (lists w) in
  let w := {| user_ns := <[name := VList data]> (user_ns w);
              lists := lists w ++ [[]];
              stderr := stderr w |} in
  ({| sources := sources self;
      sinks := <[name := VListSink data]> (sinks self) |}, w).

Definition add_source (name : string) (source : PyVal) (self : t)
  (w : World) : Result t :=
  let data := ns_get name (user_ns w) in
  source <-
    (if negb (is_none data) then
       match data with
       | VList l => Ok (VListSource l)
       | _ => Raise (mkException TypeError
                (dquote ++ name ++ dquote ++ " does not represent a list")%string)
       end
     else Ok source) ;;
  Ok {| sources := <[name := source]> (sources self); sinks := sinks self |}.

(** [ListSource(data).reader().__iter__()]: what a read session over a
    list source yields. *)
Definition read (source : PyVal) (w : World) : option (list PyVal) :=
  match source with
  | VListSource data => lists w !! data
  | _ => None
  end.

(** [ListSink(data).writer().Write(o)]. *)
Definition Write (sink : PyVal) (o : PyVal) (w : World) : World :=
  match sink with
  | VListSink data =>
      {| user_ns := user_ns w;
         lists := alter (fun items => items ++ [o]) data (lists w);
         stderr := stderr w |}
  | _ => w
  end.

(** What a sequence of writes through a sink does. *)
Definition write_all (sink : PyVal) (items : list PyVal) (w : World) : World :=
  foldl (fun w o => Write sink o w) w items.

End DataflowLocalCatalog.

(** The catalog a pipeline declares: [catalog.sources.names],
    [catalog.sources.get] and [catalog.sinks.names]. *)
Record TemplateCatalog := mkTemplate {
  source_names : list string;
  sources_get : string -> PyVal;
  sink_names : list string
}.

(** The arguments of the [ptransform] command: [--name], [--input] and
    the optional [--output]. *)
Record PTransformArgs := mkPTransformArgs {
  args_name : string;
  args_input : string;
  args_output : option string
}.

(** What the source file calls but does not define: the command parser
    of [._commands], the attributes a pipeline author hangs on the
    callback, calls into user code, and the pipeline engine.  Calls into
    user code and the engine may change the session and may raise.
    [stderr_refuses v] is the exception that [sys.stderr.write(v)]
    raises for a [v] that is not a string (a TypeError from a file
    object of CPython 2). *)
Class Collaborators := {
  parse_dataflow : PyVal -> string -> option Args;
  parse_ptransform : string -> option PTransformArgs;
  method_catalog : PyVal -> option TemplateCatalog;
  call_source : PyVal -> Args -> World -> Result PyVal * World;
  call_dataflow_method :
    PyVal -> Pipeline -> DataflowLocalCatalog.t -> Args -> World ->
    Result Pipeline * World;
  build_transform_pipeline :
    PyVal -> option PyVal -> option PyVal -> World -> Result Pipeline * World;
  pipeline_run : Pipeline -> World -> Result Pipeline * World;
  stderr_refuses : PyVal -> PyException
}.

(** [DataflowLocalCatalog.__init__] with a template catalog. *)
Section CatalogInit.
Context `{Collaborators}.

Fixpoint init_sources (names : list string) (catalog : TemplateCatalog)
  (args : Args) (self : DataflowLocalCatalog.t) (w : World)
  : Result DataflowLocalCatalog.t * World :=
  match names with
  | [] => (Ok self, w)
  | name :: names' =>
      let source := sources_get catalog name in
      let '(made, w) :=
        if callable source then call_source source args w
        else (Ok source, w) in
      match made with
      | Raise e => (Raise e, w)
      | Ok source =>
          match DataflowLocalCatalog.add_source name source self w with
          | Raise e => (Raise e, w)
          | Ok self => init_sources names' catalog args self w
          end
      end
  end.

Fixpoint init_sinks (names : list string) (self : DataflowLocalCatalog.t)
  (w : World) : DataflowLocalCatalog.t * World :=
  match names with
  | [] => (self, w)
  | name :: names' =>
      let '(self, w) := DataflowLocalCatalog.add_sink name self w in
      init_sinks names' self w
  end.

Definition new_catalog (catalog : option TemplateCatalog) (args : Args)
  (w : World) : Result DataflowLocalCatalog.t * World :=
  match catalog with
  | None => (Ok DataflowLocalCatalog.empty, w)
  | Some catalog =>
      match init_sources (source_names catalog) catalog args
              DataflowLocalCatalog.empty w with
      | (Raise e, w) => (Raise e, w)
      | (Ok self, w) =>
          let '(self, w) := init_sinks (sink_names catalog) self w in
          (Ok self, w)
      end
  end.

End CatalogInit.

(** [module.__dict__]: only a module's attributes are modelled, so the
    [__dict__] of a function, a class or another object has no entry;
    None, numbers, strings and lists have no [__dict__] at all. *)
Definition py_dict (v : PyVal) : Result (list (string * PyVal)) :=
  match v with
  | VModule d => Ok d
  | VFunction _ _ | VClass _ _ | VObject _ _ | VListSource _ | VListSink _ =>
      Ok []
  | VNone | VInt _ | VStr _ | VList _ =>
      Raise (mkException AttributeError "object has no attribute __dict__")
  end.

Definition no_module_message : string :=
  "A module named " ++ dquote ++ "dataflow" ++ dquote ++
  " was not found in this notebook.".

(** ** [class DataflowExecutor] *)

Module DataflowExecutor.

(** [self._ns] is the user namespace of the session, which the methods
    reach through the [World]; [self._args] only adds arguments to the
    parser, a collaborator. *)
Record t := mkExecutor {
  _create_dataflow : PyVal;
  _catalog : option TemplateCatalog
}.

Definition no_method_message : string :=
  "The dataflow module defined does not contain a " ++
  dquote ++ "dataflow(pipeline, catalog, args)" ++ dquote ++ " method.".

(** The condition of the second [raise]; [or] does not evaluate its
    right operand once the left one holds. *)
Definition malformed (dataflow_method : PyVal) : Result bool :=
  if is_none dataflow_method then Ok true
  else if negb (callable dataflow_method) then Ok true
  else
    argnames <- getargspec dataflow_method ;;
    Ok (negb (Nat.eqb (length argnames) 3)).

Section Executor.
Context `{Collaborators}.

Definition from_namespace (ns : gmap string PyVal) : Result t :=
  let module := ns_get "dataflow" ns in
  if is_none module then Raise (mkException Exception_ no_module_message)
  else
    dict <- py_dict module ;;
    let dataflow_method := dict_get "dataflow" dict in
    let dataflow_method :=
      if is_none dataflow_method then dict_get "main" dict
      else dataflow_method in
    bad <- malformed dataflow_method ;;
    if (bad : bool) then Raise (mkException Exception_ no_method_message)
    else Ok {| _create_dataflow := dataflow_method;
               _catalog := method_catalog dataflow_method |}.

Definition _run (self : t) (args : Args) (w : World)
  : Result Pipeline * World :=
  let pipeline := mkPipeline [] in
  match new_catalog (_catalog self) args w with
  | (Raise e, w) => (Raise e, w)
  | (Ok catalog, w) =>
      match call_dataflow_method (_create_dataflow self) pipeline catalog
              args w with
      | (Raise e, w) => (Raise e, w)
      | (Ok pipeline, w) => pipeline_run pipeline w
      end
  end.

Definition execute (self : t) (command_line : string) (w : World)
  : Result (option Pipeline) * World :=
  match parse_dataflow (_create_dataflow self) command_line with
  | None => (Ok None, w)
  | Some args =>
      match _run self args w with
      | (Raise e, w) => (Raise e, w)
      | (Ok pipeline, w) => (Ok (Some pipeline), w)
      end
  end.

End Executor.
End DataflowExecutor.

(** ** [class PTransformExecutor] *)

Module PTransformExecutor.

Record t := mkExecutor { _cls : PyVal }.

Definition no_class_message (name : string) : string :=
  "The dataflow module does not contain a class named " ++
  dquote ++ name ++ dquote.

Definition not_ptransform_message : string :=
  "The class named " ++ dquote ++ "%s" ++ dquote ++
  " does not inherit from PTransform.".

(** [type(v) == type] and [issubclass(v, df.PTransform)]. *)
Definition is_class (v : PyVal) : bool :=
  match v with VClass _ _ => true | _ => false end.

Definition is_ptransform (v : PyVal) : bool :=
  match v with
  | VClass _ mro => bool_decide ("PTransform" ∈ mro)
  | _ => false
  end.

(** Lines 248-251: the catalog that [execute] builds before it turns to
    the engine. *)
Definition execute_catalog (input_name : string) (output_name : option string)
  (w : World) : Result DataflowLocalCatalog.t * World :=
  let catalog := DataflowLocalCatalog.empty in
  match DataflowLocalCatalog.add_source input_name VNone catalog w with
  | Raise e => (Raise e, w)
  | Ok catalog =>
      match output_name with
      | Some output_name =>
          let '(catalog, w) :=
            DataflowLocalCatalog.add_sink output_name catalog w in
          (Ok catalog, w)
      | None => (Ok catalog, w)
      end
  end.

Section Executor.
Context `{Collaborators}.

Definition execute (self : t) (input_name : string)
  (output_name : option string) (w : World) : Result Pipeline * World :=
  match execute_catalog input_name output_name w with
  | (Raise e, w) => (Raise e, w)
  | (Ok catalog, w) =>
      let source := DataflowLocalCatalog.sources catalog !! input_name in
      let sink :=
        match output_name with
        | Some output_name =>
            DataflowLocalCatalog.sinks catalog !! output_name
        | None => None
        end in
      match build_transform_pipeline (_cls self) source sink w with
      | (Raise e, w) => (Raise e, w)
      | (Ok pipeline, w) => pipeline_run pipeline w
      end
  end.

Definition from_namespace (ns : gmap string PyVal) (name : string)
  : Result t :=
  let module := ns_get "dataflow" ns in
  if is_none module then Raise (mkException Exception_ no_module_message)
  else
    dict <- py_dict module ;;
    let transform_class := dict_get name dict in
    if is_none transform_class || negb (is_class transform_class) then
      Raise (mkException Exception_ (no_class_message name))
    else if negb (is_ptransform transform_class) then
      Raise (mkException Exception_ not_ptransform_message)
    else Ok {| _cls := transform_class |}.

End Executor.
End PTransformExecutor.

(** ** The line magics *)

Section Magics.
Context `{Collaborators}.

(** The body of the [try] of [dataflow]. *)
Definition dataflow_try (line : string) (w : World)
  : Result (option Pipeline) * World :=
  match DataflowExecutor.from_namespace (user_ns w) with
  | Raise e => (Raise e, w)
  | Ok dataflow_executor => DataflowExecutor.execute dataflow_executor line w
  end.

(** The handler of both magics, [_sys.stderr.write(e.message)] and
    [return None]: the stream takes a string; handed anything else its
    [write] raises, inside the handler, and that exception leaves the
    magic. *)
Definition report (e : PyException) (w : World)
  : Result (option Pipeline) * World :=
  match message e with
  | VStr s => (Ok None, stderr_write s w)
  | v => (Raise (stderr_refuses v), w)
  end.

Definition dataflow (line : string) (w : World)
  : Result (option Pipeline) * World :=
  match dataflow_try line w with
  | (Ok result, w) => (Ok result, w)
  | (Raise e, w) => report e w
  end.

(** The body of the [try] of [ptransform]. *)
Definition ptransform_try (args : PTransformArgs) (w : World)
  : Result (option Pipeline) * World :=
  match PTransformExecutor.from_namespace (user_ns w) (args_name args) with
  | Raise e => (Raise e, w)
  | Ok transform_executor =>
      match PTransformExecutor.execute transform_executor
              (args_input args) (args_output args) w with
      | (Raise e, w) => (Raise e, w)
      | (Ok pipeline, w) => (Ok (Some pipeline), w)
      end
  end.

Definition ptransform (line : string) (w : World)
  : Result (option Pipeline) * World :=
  match parse_ptransform line with
  | None => (Ok None, w)
  | Some args =>
      match ptransform_try args w with
      | (Ok result, w) => (Ok result, w)
      | (Raise e, w) => report e w
      end
  end.

End Magics.

(** ** Vocabulary for the statements about the graph *)

Module GraphSpec.
Import DataflowGraphBuilder.

(** A composite other than the root carries a label. *)
Definition labelled (t : TransformNode) : bool :=
  match t with
  | Transform _ _ _ => true
  | Composite l _ _ _ => negb (Nat.eqb (String.length l) 0)
  end.

Definition composites_labelled (p : Pipeline) : Prop :=
  Forall (fun t => labelled t = true) (pipeline_applications p).

(** Producers come first: every input of a transform was produced by a
    transform visited before it (or by the transform itself). *)
Fixpoint producers_first (known : list string) (ts : list TransformNode)
  : Prop :=
  match ts with
  | [] => True
  | t :: ts' =>
      Forall (fun v => producer_label v ∈ full_label t :: known) (inputs t)
      /\ producers_first (full_label t :: known) ts'
  end.

(** The labels of the transforms that consume a value produced under
    [l], in the order of the traversal, once per consumed value. *)
Definition consumes (l : string) (c : TransformNode) : list string :=
  (fun _ => full_label c) <$>
    filter (fun v => producer_label v = l) (inputs c).

Definition consumers (l : string) (ts : list TransformNode) : list string :=
  flat_map (consumes l) ts.

(** The edges that one [add_node] appends to the node behind [r]. *)
Definition targets (node_map : gmap string ref) (label : string)
  (ins : list PValue) (r : ref) : list string :=
  (fun _ => label) <$>
    filter (fun v => node_map !! producer_label v = Some r) ins.

(** What is stable in a graph node once it is created, and where the
    nodes of a forest land in the store. *)
Definition Shape : Type := string * string * list ref.

Definition shape (g : GraphNode) : Shape :=
  (node_id g, node_name g, node_nodes g).

Definition size (t : TransformNode) : nat := length (applications t).

Fixpoint starts (n : ref) (ts : list TransformNode) : list ref :=
  match ts with
  | [] => []
  | t :: ts' => n :: starts (n + size t) ts'
  end.

Fixpoint expected (n : ref) (t : TransformNode) : list Shape :=
  match t with
  | Transform l _ _ => [(l, display_name l, [])]
  | Composite l _ _ ps =>
      (l, display_name l, starts (S n) ps)
      :: (fix forest (n : ref) (ts : list TransformNode) : list Shape :=
            match ts with
            | [] => []
            | t' :: ts' => expected n t' ++ forest (n + size t') ts'
            end) (S n) ps
  end.

Fixpoint expected_forest (n : ref) (ts : list TransformNode) : list Shape :=
  match ts with
  | [] => []
  | t :: ts' => expected n t ++ expected_forest (n + size t) ts'
  end.

(** Appending children to the node on top of the stack. *)
Definition attach (top : option ref) (kids : list ref) (sh : list Shape)
  : list Shape :=
  match top with
  | None => sh
  | Some r => alter (fun s : Shape => (s.1.1, s.1.2, s.2 ++ kids)) r sh
  end.

(** What a graph node shows apart from its children. *)
Definition View : Type := string * string * list string.

Definition node_view (g : GraphNode) : View :=
  (node_id g, node_name g, node_edges g).

Definition graph_view (g : Graph) : View :=
  (graph_id g, graph_name g, graph_edges g).

(** How labels nest, in a graph and in a pipeline. *)
Inductive Nesting :=
| Nest (label : string) (inner : list Nesting).

Fixpoint graph_nesting (g : Graph) : Nesting :=
  match g with
  | Node i _ kids _ => Nest i (map graph_nesting kids)
  end.

Fixpoint transform_nesting (t : TransformNode) : Nesting :=
  match t with
  | Transform l _ _ => Nest l []
  | Composite l _ _ ps => Nest l (map transform_nesting ps)
  end.

(** The last segment of a slash-delimited path. *)
Definition last_segment (label : string) : string :=
  default label (last (split slash label)).

(** What running the events of a forest does to a builder whose store
    holds [n] nodes: the stack is back where it was, the roots of the
    forest hang under the node on top of the stack (or in [_nodes]), the
    new nodes follow the old ones in the order of the traversal, and
    every label met is in the node map. *)
Definition runs_to (evs : list Event) (kids : list ref) (new : list Shape)
  (labels known : list string) (self : DataflowGraphBuilder.t) : Prop :=
  exists self',
    for_each on_event evs self = Ok self'
    /\ _node_stack self' = _node_stack self
    /\ _nodes self'
       = match last (_node_stack self) with
         | None => _nodes self ++ kids
         | Some _ => _nodes self
         end
    /\ shape <$> store self'
       = attach (last (_node_stack self)) kids (shape <$> store self) ++ new
    /\ forall l, l ∈ labels ++ known -> is_Some (_node_map self' !! l).

Definition ready (known : list string) (self : DataflowGraphBuilder.t) : Prop :=
  (forall top, last (_node_stack self) = Some top -> top < length (store self))
  /\ forall l, l ∈ known -> is_Some (_node_map self !! l).

Definition tree_runs (t : TransformNode) : Prop :=
  forall self known,
    Forall (fun t => labelled t = true) (applications t) ->
    ready known self ->
    producers_first known (applications t) ->
    runs_to (visit_node t) [length (store self)]
      (expected (length (store self)) t)
      (full_label <$> applications t) known self.

Definition forest_runs (ts : list TransformNode) : Prop :=
  forall self known,
    Forall (fun t => labelled t = true) (flat_map applications ts) ->
    ready known self ->
    producers_first known (flat_map applications ts) ->
    runs_to (flat_map visit_node ts) (starts (length (store self)) ts)
      (expected_forest (length (store self)) ts)
      (full_label <$> flat_map applications ts) known self.

(** The store lays out the graph of [t] from [n] on: whatever surrounds
    the shapes of [t], resolving [n] yields a graph whose nodes are the
    store entries from [n] on, in order. *)
Definition tree_resolves (t : TransformNode) : Prop :=
  forall (st : list GraphNode) n fuel pre post,
    shape <$> st = pre ++ expected n t ++ post ->
    length pre = n ->
    size t <= fuel ->
    exists g,
      resolve fuel st n = Some g
      /\ graph_nesting g = transform_nesting t
      /\ graph_view <$> graph_nodes g
         = take (size t) (drop n (node_view <$> st)).

Definition forest_resolves (ts : list TransformNode) : Prop :=
  forall (st : list GraphNode) n fuel pre post,
    shape <$> st = pre ++ expected_forest n ts ++ post ->
    length pre = n ->
    length (flat_map applications ts) <= fuel ->
    exists gs,
      mapM (resolve fuel st) (starts n ts) = Some gs
      /\ map graph_nesting gs = map transform_nesting ts
      /\ graph_view <$> flat_map graph_nodes gs
         = take (length (flat_map applications ts))
             (drop n (node_view <$> st)).

(** The transform nodes that the events hand to [add_node]. *)
Definition added_by (e : Event) : list TransformNode :=
  match e with
  | EnterComposite n =>
      if Nat.eqb (String.length (full_label n)) 0 then [] else [n]
  | VisitTransform n => [n]
  | LeaveComposite _ | VisitValue _ _ => []
  end.

Definition added (evs : list Event) : list TransformNode :=
  flat_map added_by evs.

(** What the node map and the edge lists hold once the transforms
    [visited] have been added. *)
Record edges_inv (visited : list TransformNode)
  (self : DataflowGraphBuilder.t) : Prop := {
  inv_ids : node_id <$> store self = full_label <$> visited;
  inv_map : forall l r,
    _node_map self !! l = Some r -> (node_id <$> store self) !! r = Some l;
  inv_edges : forall r g,
    store self !! r = Some g -> node_edges g = consumers (node_id g) visited;
  inv_inputs : forall c v,
    c ∈ visited -> v ∈ inputs c -> producer_label v ∈ full_label <$> visited
}.

End GraphSpec.

(** ** Vocabulary for the statements about the collector *)

Module CollectorSpec.
Import DataflowDataCollector.

(** The record [c] under the label [l] is the sample of a collection
    value that the events report for a producer labelled [l]. *)
Definition is_sample (evs : list Event) (l : string) (c : Collection) : Prop :=
  exists value producer_node,
    VisitValue value producer_node ∈ evs
    /\ full_label producer_node = l
    /\ value_type value = PCollection_class
    /\ count c = length (get value)
    /\ data c = take 25 (get value)
    /\ length (data c) <= 25.

End CollectorSpec.

(** ** Vocabulary for the statements about the executors *)

Module ExecutorSpec.

(** The module that the namespace binds to [dataflow], if it binds one. *)
Definition dataflow_module (ns : gmap string PyVal)
  : option (list (string * PyVal)) :=
  match ns !! "dataflow" with
  | Some (VModule dict) => Some dict
  | _ => None
  end.

(** The attribute that the lookup settles on: [dataflow], or [main] when
    there is no [dataflow]. *)
Definition located (dict : list (string * PyVal)) : PyVal :=
  if is_none (dict_get "dataflow" dict) then dict_get "main" dict
  else dict_get "dataflow" dict.



(** Collaborators to try the magics with: a parser that accepts every
    line, no template catalog, and an engine that changes nothing. *)
Definition quiet : Collaborators := {|
  parse_dataflow := fun _ _ => Some [];
  parse_ptransform := fun _ => Some (mkPTransformArgs "Double" "in" (Some "out"));
  method_catalog := fun _ => None;
  call_source := fun source _ w => (Ok source, w);
  call_dataflow_method := fun _ pipeline _ _ w => (Ok pipeline, w);
  build_transform_pipeline := fun _ _ _ w => (Ok (mkPipeline []), w);
  pipeline_run := fun pipeline w => (Ok pipeline, w);
  stderr_refuses :=
    fun _ => mkException TypeError "expected a character buffer object"
|}.

(** Collaborators whose user code fails on a lookup, [d[3]] with no key
    3: the callback of the dataflow command and the construction of the
    pipeline of the ptransform command raise [KeyError(3)]. *)
Definition failing_lookup : Collaborators := {|
  parse_dataflow := fun _ _ => Some [];
  parse_ptransform := fun _ => Some (mkPTransformArgs "Double" "in" (Some "out"));
  method_catalog := fun _ => None;
  call_source := fun source _ w => (Ok source, w);
  call_dataflow_method := fun _ _ _ _ w => (Raise (raised KeyError (VInt 3)), w);
  build_transform_pipeline :=
    fun _ _ _ w => (Raise (raised KeyError (VInt 3)), w);
  pipeline_run := fun pipeline w => (Ok pipeline, w);
  stderr_refuses :=
    fun _ => mkException TypeError "expected a character buffer object"
|}.

End ExecutorSpec.

(** ** A pipeline to try things on: composite [A] with leaves [A/x] and
    [A/y], where [A/y] consumes what [A/x] produced. *)

Module Sample.
Import DataflowGraphBuilder.

Definition x_out : PValue :=
  mkPValue PCollection_class "A/x" [VInt 1; VInt 2; VInt 3].

Definition y_out : PValue :=
  mkPValue PCollection_class "A/y" [VInt 2; VInt 4; VInt 6].

Definition pipeline : Pipeline :=
  mkPipeline
    [Composite "A" [] []
       [Transform "A/x" [] [x_out]; Transform "A/y" [x_out] [y_out]]].

Definition graph : list Graph :=
  [Node "A" "A" [Node "A/x" "x" [] ["A/y"]; Node "A/y" "y" [] []] []].

End Sample.

(** ** Vocabulary for the further properties *)

Module MoreSpec.

(** A composite without a label leaves no trace in the graph: its parts
    take its place. *)
Fixpoint splice (t : TransformNode) : list TransformNode :=
  match t with
  | Transform _ _ _ => [t]
  | Composite l i o ps =>
      if Nat.eqb (String.length l) 0 then flat_map splice ps
      else [Composite l i o (flat_map splice ps)]
  end.

Definition splice_pipeline (p : Pipeline) : Pipeline :=
  mkPipeline (flat_map splice (root_parts p)).

(** The record that the collector makes of a collection value. *)
Definition sample_of (value : PValue) : DataflowDataCollector.Collection :=
  DataflowDataCollector.mkCollection (length (get value)) (take 25 (get value)).

(** The event reports a collection value of a producer labelled [l]. *)
Definition collection_event (l : string) (e : Event) : Prop :=
  match e with
  | VisitValue value producer_node =>
      value_type value = PCollection_class /\ full_label producer_node = l
  | _ => False
  end.

(** The store [b] is the store [a] grown: no node is lost or renamed, and
    the lists of children and of edges are only appended to. *)
Definition store_grows (a b : list DataflowGraphBuilder.GraphNode) : Prop :=
  forall r g,
    a !! r = Some g ->
    exists g',
      b !! r = Some g'
      /\ DataflowGraphBuilder.node_id g' = DataflowGraphBuilder.node_id g
      /\ DataflowGraphBuilder.node_name g' = DataflowGraphBuilder.node_name g
      /\ DataflowGraphBuilder.node_nodes g
         `prefix_of` DataflowGraphBuilder.node_nodes g'
      /\ DataflowGraphBuilder.node_edges g
         `prefix_of` DataflowGraphBuilder.node_edges g'.

Definition grows (a b : DataflowGraphBuilder.t) : Prop :=
  DataflowGraphBuilder._nodes a `prefix_of` DataflowGraphBuilder._nodes b
  /\ store_grows (DataflowGraphBuilder.store a) (DataflowGraphBuilder.store b).

(** Running the events of [t] either ends with the stack as it was or
    raises KeyError. *)
Definition balanced (t : TransformNode) : Prop :=
  forall self : DataflowGraphBuilder.t,
    match for_each DataflowGraphBuilder.on_event (visit_node t) self with
    | Ok self' =>
        DataflowGraphBuilder._node_stack self'
        = DataflowGraphBuilder._node_stack self
    | Raise e => exc_type e = KeyError
    end.

(** The builder cannot tell [t] from what is left of it once the
    composites without a label are spliced out. *)
Definition transparent (t : TransformNode) : Prop :=
  forall self : DataflowGraphBuilder.t,
    for_each DataflowGraphBuilder.on_event (visit_node t) self
    = for_each DataflowGraphBuilder.on_event
        (flat_map visit_node (splice t)) self.

(** A pipeline whose second transform consumes a value of the third. *)
Definition backwards : Pipeline :=
  mkPipeline
    [Transform "read" [] [];
     Transform "join" [mkPValue PCollection_class "late" []] [];
     Transform "late" [] []].

(** The source that the catalog registers for a declared name: the list
    bound under the name if there is one, else the declared source. *)
Definition resolved_source (catalog : TemplateCatalog) (w : World)
  (name : string) : PyVal :=
  match ns_get name (user_ns w) with
  | VList l => VListSource l
  | _ => sources_get catalog name
  end.

(** The namespace lets the catalog take the name as a source: nothing,
    None or a list is bound under it. *)
Definition usable_source (w : World) (name : string) : Prop :=
  user_ns w !! name = None
  \/ user_ns w !! name = Some VNone
  \/ exists l, user_ns w !! name = Some (VList l).

(** Collaborators whose engine refuses every pipeline and leaves the
    session alone. *)
Definition broken_engine : Collaborators := {|
  parse_dataflow := fun _ _ => Some [];
  parse_ptransform := fun _ => Some (mkPTransformArgs "Double" "in" (Some "out"));
  method_catalog := fun _ => None;
  call_source := fun source _ w => (Ok source, w);
  call_dataflow_method := fun _ pipeline _ _ w => (Ok pipeline, w);
  build_transform_pipeline :=
    fun _ _ _ w => (Raise (mkException Exception_ "no runner"), w);
  pipeline_run := fun pipeline w => (Ok pipeline, w);
  stderr_refuses :=
    fun _ => mkException TypeError "expected a character buffer object"
|}.

(** A session to try the catalog on, and a catalog that declares the
    source [in], the source [lookup] and the sink [out]. *)
Definition session : World :=
  mkWorld {["in" := VList 0; "out" := VList 1;
            "dataflow" :=
              VModule [("Double",
                        VClass "Double" ["Double"; "PTransform"; "object"])]]}
    [[VInt 1; VInt 2; VInt 3]; [VStr "old"]] [].

Definition template : TemplateCatalog :=
  mkTemplate ["in"; "lookup"]
    (fun name => VObject "TextFileSource" name) ["out"].

(** Collaborators under which every callback carries that catalog, and
    a session whose callback is well formed while [lookup] holds a
    number. *)
Definition templated : Collaborators := {|
  parse_dataflow := fun _ _ => Some [];
  parse_ptransform := fun _ => None;
  method_catalog := fun _ => Some template;
  call_source := fun source _ w => (Ok source, w);
  call_dataflow_method := fun _ pipeline _ _ w => (Ok pipeline, w);
  build_transform_pipeline := fun _ _ _ w => (Ok (mkPipeline []), w);
  pipeline_run := fun pipeline w => (Ok pipeline, w);
  stderr_refuses :=
    fun _ => mkException TypeError "expected a character buffer object"
|}.

Definition notebook : World :=
  mkWorld {["lookup" := VInt 5;
            "dataflow" :=
              VModule [("dataflow",
                        VFunction "dataflow" ["pipeline"; "catalog"; "args"])]]}
    [] [].

(** A pipeline whose transform [join] consumes two values of [read],
    and one with a composite that has no label. *)
Definition read_out : PValue := mkPValue PCollection_class "read" [VInt 1].

Definition side_out : PValue := mkPValue PCollection_class "read" [VInt 2].

Definition diamond : Pipeline :=
  mkPipeline
    [Transform "read" [] [read_out; side_out];
     Transform "join" [read_out; side_out] []].

Definition unlabelled : Pipeline :=
  mkPipeline
    [Composite EmptyString [] []
       [Transform "read" [] [read_out]; Transform "count" [read_out] []]].

End MoreSpec.

Import DataflowGraphBuilder GraphSpec.

Example sample_graph :
  exists r, visit Sample.pipeline = Ok r /\ to_graph r = Some Sample.graph.
Proof. eexists. split; vm_compute; reflexivity. Qed.

(** * Proofs *)

(** ** Generalities *)

Lemma TransformNode_nested_ind (P : TransformNode -> Prop) :
  (forall l i o, P (Transform l i o)) ->
  (forall l i o ps, Forall P ps -> P (Composite l i o ps)) ->
  forall t, P t.
Proof.
  intros HT HC. fix IH 1. intros [l i o | l i o ps].
  - apply HT.
  - apply HC. induction ps as [|t ts IHts]; constructor.
    + apply IH.
    + apply IHts.
Qed.

Lemma for_each_app {A S} (step : S -> A -> Result S) (xs ys : list A) (s : S) :
  for_each step (xs ++ ys) s = Py.bind (for_each step xs s) (for_each step ys).
Proof.
  revert s. induction xs as [|x xs IH]; intros s; simpl; [done|].
  destruct (step s x); simpl; [apply IH | done].
Qed.

Lemma for_each_values (t : TransformNode) (outs : list PValue)
  (self : DataflowGraphBuilder.t) :
  for_each on_event (map (fun v => VisitValue v t) outs) self = Ok self.
Proof. induction outs as [|v outs IH]; simpl; [done | apply IH]. Qed.

(** ** The shape of the store *)

Lemma expected_composite n l i o ps :
  expected n (Composite l i o ps)
  = (l, display_name l, starts (S n) ps) :: expected_forest (S n) ps.
Proof.
  reflexivity.
Qed.

Lemma size_composite l i o ps :
  size (Composite l i o ps) = S (length (flat_map applications ps)).
Proof. done. Qed.

Lemma length_expected_forest_of ts :
  Forall (fun t => forall n, length (expected n t) = size t) ts ->
  forall n, length (expected_forest n ts) = length (flat_map applications ts).
Proof.
  induction 1 as [|t ts Ht _ IH]; intros n; simpl; [done|].
  rewrite !length_app, Ht, IH. done.
Qed.

Lemma length_expected t n : length (expected n t) = size t.
Proof.
  revert n. induction t as [l i o | l i o ps IH] using TransformNode_nested_ind;
    intros n.
  - done.
  - rewrite expected_composite, size_composite. simpl.
    by rewrite length_expected_forest_of.
Qed.

Lemma length_expected_forest ts n :
  length (expected_forest n ts) = length (flat_map applications ts).
Proof.
  apply length_expected_forest_of, Forall_forall. intros t _ m.
  apply length_expected.
Qed.

Lemma length_attach top kids sh : length (attach top kids sh) = length sh.
Proof. destruct top; simpl; [apply length_alter | done]. Qed.

Lemma attach_app top kids sh more :
  (forall r, top = Some r -> r < length sh) ->
  attach top kids (sh ++ more) = attach top kids sh ++ more.
Proof.
  destruct top as [r|]; simpl; [|done].
  intros Hr. by apply alter_app_l, Hr.
Qed.

Lemma attach_attach top kids1 kids2 sh :
  attach top kids2 (attach top kids1 sh) = attach top (kids1 ++ kids2) sh.
Proof.
  destruct top as [r|]; simpl; [|done].
  rewrite list_alter_alter_eq. apply list_alter_ext; [|done].
  intros [[a b] c] _. simpl. by rewrite <- (assoc_L (++)).
Qed.

Lemma attach_nil top sh : attach top [] sh = sh.
Proof.
  destruct top as [r|]; simpl; [|done].
  apply list_alter_id. intros [[a b] c]. simpl.
  by rewrite (right_id_L [] (++)).
Qed.

Lemma shape_alter_edge label r (st : list GraphNode) :
  shape <$> alter (append_edge label) r st = shape <$> st.
Proof.
  rewrite (list_fmap_alter shape (append_edge label) id).
  - by apply list_alter_id.
  - by apply Forall_forall.
Qed.

Lemma shape_alter_node child r (st : list GraphNode) :
  shape <$> alter (append_node child) r st
  = attach (Some r) [child] (shape <$> st).
Proof.
  simpl. apply list_fmap_alter, Forall_forall. done.
Qed.

(** ** One [add_node] *)

Lemma add_edges_run (m : gmap string ref) label ins (st : list GraphNode) :
  Forall (fun v => is_Some (m !! producer_label v)) ins ->
  exists st',
    for_each (add_edge m label) ins st = Ok st'
    /\ shape <$> st' = shape <$> st
    /\ forall r, node_edges <$> st' !! r
         = (fun g => node_edges g ++ targets m label ins r) <$> st !! r.
Proof.
  intros Hins. revert st.
  induction Hins as [|v ins [p Hp] _ IH]; intros st.
  - exists st. split_and!; [done..|]. intros r. unfold targets. simpl.
    destruct (st !! r) as [g|]; simpl; [|done]. by rewrite (right_id_L [] (++)).
  - destruct (IH (alter (append_edge label) p st)) as (st' & Hrun & Hsh & Hed).
    exists st'. split_and!.
    + simpl. unfold add_edge at 1. rewrite Hp. simpl. exact Hrun.
    + by rewrite Hsh, shape_alter_edge.
    + intros r. rewrite Hed. unfold targets. rewrite filter_cons.
      destruct (decide (p = r)) as [->|Hne].
      * rewrite list_lookup_alter_eq, decide_True by done.
        destruct (st !! r) as [g|]; simpl; [|done].
        by rewrite <- (assoc_L (++)).
      * rewrite list_lookup_alter_ne, decide_False by congruence. done.
Qed.

Lemma add_node_run (t : TransformNode) (self : DataflowGraphBuilder.t) :
  let n := length (store self) in
  let l := full_label t in
  let m := <[l := n]> (_node_map self) in
  let fresh := mkGraphNode l (display_name l) [] [] in
  (forall top, last (_node_stack self) = Some top -> top < n) ->
  Forall (fun v => is_Some (m !! producer_label v)) (inputs t) ->
  exists st',
    add_node t self
    = Ok (n, mkBuilder st'
               (match last (_node_stack self) with
                | None => _nodes self ++ [n]
                | Some _ => _nodes self
                end)
               (_node_stack self) m)
    /\ shape <$> st'
       = attach (last (_node_stack self)) [n] (shape <$> store self)
         ++ [(l, display_name l, [])]
    /\ forall r, node_edges <$> st' !! r
         = (fun g => node_edges g ++ targets m l (inputs t) r)
             <$> (store self ++ [fresh]) !! r.
Proof.
  intros n l m fresh Htop Hins. unfold add_node. fold n l m.
  destruct (last (_node_stack self)) as [top|] eqn:Hlast.
  - destruct (add_edges_run m l (inputs t)
                (alter (append_node n) top (store self ++ [fresh])) Hins)
      as (st' & Hrun & Hsh & Hed).
    exists st'. split_and!.
    + fold fresh. rewrite Hrun. done.
    + rewrite Hsh, shape_alter_node, fmap_app. simpl.
      rewrite alter_app_l; [done|]. rewrite length_fmap. by apply Htop.
    + intros r. rewrite Hed.
      destruct (decide (top = r)) as [->|Hne].
      * rewrite list_lookup_alter_eq.
        by destruct ((store self ++ [fresh]) !! r).
      * by rewrite list_lookup_alter_ne.
  - destruct (add_edges_run m l (inputs t) (store self ++ [fresh]) Hins)
      as (st' & Hrun & Hsh & Hed).
    exists st'. split_and!.
    + fold fresh. rewrite Hrun. done.
    + rewrite Hsh, fmap_app. done.
    + done.
Qed.

(** ** Running the traversal *)

Lemma producers_first_mono known known' ts :
  (forall l, l ∈ known -> l ∈ known') ->
  producers_first known ts -> producers_first known' ts.
Proof.
  revert known known'. induction ts as [|t ts IH]; intros k k' Hk; simpl.
  - done.
  - intros [Hins Hrest]. split.
    + eapply Forall_impl; [exact Hins|]. simpl. intros v Hv.
      apply elem_of_cons in Hv as [->|Hv]; [left | right; by apply Hk].
    + eapply IH; [|exact Hrest]. intros l Hl.
      apply elem_of_cons in Hl as [->|Hl]; [left | right; by apply Hk].
Qed.

Lemma producers_first_app known xs ys :
  producers_first known (xs ++ ys) ->
  producers_first known xs
  /\ producers_first ((full_label <$> xs) ++ known) ys.
Proof.
  revert known. induction xs as [|t xs IH]; intros k; simpl.
  - done.
  - intros [Hins Hrest]. apply IH in Hrest as [Hxs Hys]. split; [done|].
    eapply producers_first_mono; [|exact Hys]. intros l.
    rewrite !elem_of_app, !elem_of_cons, elem_of_app. tauto.
Qed.

Lemma forest_runs_of ts : Forall tree_runs ts -> forest_runs ts.
Proof.
  induction 1 as [|t ts Ht _ IH]; intros self known Hlab [Htop Hknown] Hprod.
  - exists self. simpl. split_and!; try done.
    + destruct (last (_node_stack self)); [done | by rewrite (right_id_L [] (++))].
    + by rewrite attach_nil, (right_id_L [] (++)).
  - simpl in Hlab, Hprod. apply Forall_app in Hlab as [Hlab1 Hlab2].
    apply producers_first_app in Hprod as [Hprod1 Hprod2].
    destruct (Ht self known Hlab1 (conj Htop Hknown) Hprod1)
      as (self1 & Hrun1 & Hst1 & Hn1 & Hsh1 & Hmap1).
    assert (Hlen1 : length (store self1) = length (store self) + size t).
    { rewrite <- (length_fmap shape (store self1)), Hsh1, length_app,
        length_attach, length_fmap, length_expected. done. }
    destruct (IH self1 ((full_label <$> applications t) ++ known) Hlab2)
      as (self2 & Hrun2 & Hst2 & Hn2 & Hsh2 & Hmap2); [|done|].
    { split; [|done]. rewrite Hst1. intros top Hlast.
      specialize (Htop top Hlast). lia. }
    exists self2. split_and!.
    + simpl. rewrite for_each_app, Hrun1. exact Hrun2.
    + congruence.
    + rewrite Hn2, Hst1, Hn1. simpl.
      destruct (last (_node_stack self)); [done|].
      by rewrite Hlen1, <- (assoc_L (++)).
    + rewrite Hsh2, Hst1, Hsh1, Hlen1. simpl.
      rewrite attach_app, attach_attach, <- (assoc_L (++)); [done|].
      intros r Hr. rewrite length_attach, length_fmap. by apply Htop.
    + intros l Hl. apply Hmap2. simpl in Hl. rewrite fmap_app in Hl.
      rewrite !elem_of_app in *. tauto.
Qed.

Lemma tree_runs_all t : tree_runs t.
Proof.
  induction t as [l i o | l i o ps IH] using TransformNode_nested_ind;
    intros self known Hlab [Htop Hknown] Hprod.
  - destruct Hprod as [Hins _]. simpl in Hins.
    destruct (add_node_run (Transform l i o) self Htop)
      as (st' & Hadd & Hsh & _).
    { eapply Forall_impl; [exact Hins|]. simpl. intros v Hv.
      apply elem_of_cons in Hv as [->|Hv].
      - rewrite lookup_insert_eq. eauto.
      - destruct (decide (l = producer_label v)) as [->|Hne].
        + rewrite lookup_insert_eq. eauto.
        + rewrite lookup_insert_ne by done. by apply Hknown. }
    eexists. split_and!.
    + simpl. unfold visit_transform. rewrite Hadd. simpl.
      apply for_each_values.
    + done.
    + done.
    + simpl. exact Hsh.
    + simpl. intros l' Hl'. apply elem_of_cons in Hl' as [->|Hl'].
      * rewrite lookup_insert_eq. eauto.
      * destruct (decide (l = l')) as [->|Hne].
        -- rewrite lookup_insert_eq. eauto.
        -- rewrite lookup_insert_ne by done. by apply Hknown.
  - apply forest_runs_of in IH.
    apply Forall_cons in Hlab as [Hl Hlab]. simpl in Hl.
    apply negb_true_iff in Hl.
    destruct Hprod as [Hins Hprod]. simpl in Hins. fold applications in Hprod.
    destruct (add_node_run (Composite l i o ps) self Htop)
      as (st' & Hadd & Hsh & _).
    { eapply Forall_impl; [exact Hins|]. simpl. intros v Hv.
      apply elem_of_cons in Hv as [->|Hv].
      - rewrite lookup_insert_eq. eauto.
      - destruct (decide (l = producer_label v)) as [->|Hne].
        + rewrite lookup_insert_eq. eauto.
        + rewrite lookup_insert_ne by done. by apply Hknown. }
    set (n := length (store self)) in *.
    set (entered := mkBuilder st'
           (match last (_node_stack self) with
            | None => _nodes self ++ [n]
            | Some _ => _nodes self
            end)
           (_node_stack self ++ [n])
           (<[l := n]> (_node_map self))).
    assert (Hlen : length st' = S n).
    { rewrite <- (length_fmap shape st'), Hsh, length_app, length_attach,
        length_fmap. simpl. lia. }
    destruct (IH entered (l :: known) Hlab) as (self2 & Hrun & Hst & Hn & Hsh2 & Hmap).
    { split; simpl.
      - intros top. rewrite last_snoc. intros [= <-]. lia.
      - intros l' Hl'. apply elem_of_cons in Hl' as [->|Hl'].
        + rewrite lookup_insert_eq. eauto.
        + destruct (decide (l = l')) as [->|Hne].
          * rewrite lookup_insert_eq. eauto.
          * rewrite lookup_insert_ne by done. by apply Hknown. }
    { exact Hprod. }
    simpl in Hst, Hn, Hsh2. rewrite last_snoc in Hn, Hsh2. rewrite Hlen in Hsh2.
    exists (mkBuilder (store self2) (_nodes self2) (_node_stack self)
              (_node_map self2)).
    split_and!.
    + simpl. unfold enter_composite_transform. simpl. rewrite Hl, Hadd. simpl.
      fold entered. rewrite for_each_app, Hrun. simpl.
      unfold leave_composite_transform. simpl. rewrite Hl, Hst.
      destruct (_node_stack self ++ [n]) eqn:Hstack.
      { by apply app_eq_nil in Hstack as [_ ?]. }
      rewrite <- Hstack, removelast_last. apply for_each_values.
    + done.
    + simpl. exact Hn.
    + simpl store. rewrite Hsh2, Hsh, expected_composite. simpl full_label.
      unfold attach at 1.
      rewrite alter_app_r_alt by (rewrite length_attach, length_fmap; done).
      rewrite length_attach, length_fmap. fold n. rewrite Nat.sub_diag. simpl.
      by rewrite <- (assoc_L (++)).
    + simpl. intros l' Hl'. apply Hmap.
      rewrite elem_of_cons, elem_of_app in Hl'.
      rewrite elem_of_app, elem_of_cons. tauto.
Qed.

Lemma pipeline_runs (p : Pipeline) :
  composites_labelled p ->
  producers_first [] (pipeline_applications p) ->
  exists self,
    for_each on_event (pipeline_visit p) init = Ok self
    /\ _nodes self = starts 0 (root_parts p)
    /\ shape <$> store self = expected_forest 0 (root_parts p).
Proof.
  intros Hlab Hprod.
  assert (Hall : Forall tree_runs (root_parts p)).
  { apply Forall_forall. intros t _. apply tree_runs_all. }
  assert (Hready : ready [] init).
  { split; [done|]. intros l Hl. by apply elem_of_nil in Hl. }
  destruct (forest_runs_of (root_parts p) Hall init [] Hlab Hready Hprod)
    as (self & Hrun & Hst & Hn & Hsh & _).
  exists self. split_and!; [|done..].
  unfold pipeline_visit, root. simpl.
  rewrite for_each_app, Hrun. simpl. done.
Qed.

(** ** Reading the graph back from the store *)

Lemma shape_at (st : list GraphNode) pre s post :
  shape <$> st = pre ++ s :: post ->
  exists g, st !! length pre = Some g /\ shape g = s.
Proof.
  intros Hsh.
  assert (Hs : (shape <$> st) !! length pre = Some s)
    by (rewrite Hsh; apply list_lookup_middle; done).
  rewrite list_lookup_fmap in Hs.
  destruct (st !! length pre) as [g|]; [|done].
  exists g. split; [done|]. by injection Hs.
Qed.

Lemma forest_resolves_of ts : Forall tree_resolves ts -> forest_resolves ts.
Proof.
  induction 1 as [|t ts Ht _ IH]; intros st n fuel pre post Hsh Hpre Hfuel.
  - exists []. done.
  - simpl in Hsh, Hfuel. rewrite length_app in Hfuel.
    destruct (Ht st n fuel pre (expected_forest (n + size t) ts ++ post))
      as (g & Hg & Hid & Hview);
      [by rewrite Hsh, <- (assoc_L (++)) | done | unfold size; lia |].
    destruct (IH st (n + size t) fuel (pre ++ expected n t) post)
      as (gs & Hgs & Hids & Hviews).
    { by rewrite Hsh, <- !(assoc_L (++)). }
    { rewrite length_app, length_expected. lia. }
    { lia. }
    exists (g :: gs). split_and!.
    + simpl. by rewrite Hg, Hgs.
    + simpl. by rewrite Hid, Hids.
    + simpl. rewrite fmap_app, Hview, Hviews, length_app.
      fold (size t). by rewrite <- take_take_drop, drop_drop.
Qed.

Lemma tree_resolves_all t : tree_resolves t.
Proof.
  induction t as [l i o | l i o ps IH] using TransformNode_nested_ind;
    intros st n fuel pre post Hsh Hpre Hfuel.
  - destruct (shape_at st pre _ post Hsh) as (g & Hg & Hshape).
    rewrite Hpre in Hg. injection Hshape as Hid Hname Hnodes.
    destruct fuel as [|fuel]; [unfold size in Hfuel; simpl in Hfuel; lia|].
    exists (Node (node_id g) (node_name g) [] (node_edges g)). split_and!.
    + simpl. by rewrite Hg, Hnodes.
    + simpl. by rewrite Hid.
    + simpl. erewrite drop_S by (rewrite list_lookup_fmap, Hg; done). done.
  - apply forest_resolves_of in IH.
    rewrite expected_composite in Hsh.
    destruct (shape_at st pre _ _ Hsh) as (g & Hg & Hshape).
    rewrite Hpre in Hg. injection Hshape as Hid Hname Hnodes.
    rewrite size_composite in *.
    destruct fuel as [|fuel]; [lia|].
    destruct (IH st (S n) fuel (pre ++ [(l, display_name l, starts (S n) ps)]) post)
      as (gs & Hgs & Hids & Hviews).
    { by rewrite Hsh, <- (assoc_L (++)). }
    { rewrite length_app. simpl. lia. }
    { lia. }
    exists (Node (node_id g) (node_name g) gs (node_edges g)). split_and!.
    + simpl. by rewrite Hg, Hnodes, Hgs.
    + simpl. by rewrite Hid, Hids.
    + simpl graph_nodes. rewrite fmap_cons.
      erewrite (drop_S _ _ n) by (rewrite list_lookup_fmap, Hg; done).
      simpl. f_equal. exact Hviews.
Qed.

(** ** The edges *)

Lemma filter_ext_in {A} (P Q : A -> Prop) `{!forall x, Decision (P x)}
  `{!forall x, Decision (Q x)} (l : list A) :
  (forall x, x ∈ l -> P x <-> Q x) -> filter P l = filter Q l.
Proof.
  induction l as [|x l IH]; intros HPQ; [done|].
  rewrite !filter_cons, IH by (intros y Hy; apply HPQ; by right).
  destruct (decide (P x)) as [HP|HP], (decide (Q x)) as [HQ|HQ]; try done.
  - destruct HQ. apply HPQ; [left | done].
  - destruct HP. apply HPQ; [left | done].
Qed.

Lemma shape_ids (st st' : list GraphNode) :
  shape <$> st = shape <$> st' -> node_id <$> st = node_id <$> st'.
Proof.
  intros Hsh. apply (f_equal (fmap (fun s : Shape => s.1.1))) in Hsh.
  rewrite <- !list_fmap_compose in Hsh. exact Hsh.
Qed.

Lemma add_edges_inv (m : gmap string ref) label ins (st st' : list GraphNode) :
  for_each (add_edge m label) ins st = Ok st' ->
  Forall (fun v => is_Some (m !! producer_label v)) ins.
Proof.
  revert st. induction ins as [|v ins IH]; intros st; simpl; [done|].
  unfold add_edge at 1.
  destruct (m !! producer_label v) as [p|] eqn:Hp; simpl; [|done].
  intros Hrun. constructor; [by rewrite Hp | by eapply IH].
Qed.

Lemma add_node_inv (t : TransformNode) (self self' : DataflowGraphBuilder.t) r :
  let n := length (store self) in
  let l := full_label t in
  let m := <[l := n]> (_node_map self) in
  let fresh := mkGraphNode l (display_name l) [] [] in
  add_node t self = Ok (r, self') ->
  r = n
  /\ _node_map self' = m
  /\ _node_stack self' = _node_stack self
  /\ Forall (fun v => is_Some (m !! producer_label v)) (inputs t)
  /\ node_id <$> store self' = (node_id <$> store self) ++ [l]
  /\ forall r, node_edges <$> store self' !! r
       = (fun g => node_edges g ++ targets m l (inputs t) r)
           <$> (store self ++ [fresh]) !! r.
Proof.
  intros n l m fresh. unfold add_node. fold n l m fresh.
  destruct (last (_node_stack self)) as [top|] eqn:Hlast.
  - destruct (for_each (add_edge m l) (inputs t)
                (alter (append_node n) top (store self ++ [fresh])))
      as [st'|e] eqn:Hrun; simpl; [|done].
    intros [= <- <-]. simpl.
    pose proof (add_edges_inv _ _ _ _ _ Hrun) as Hins.
    destruct (add_edges_run m l (inputs t)
                (alter (append_node n) top (store self ++ [fresh])) Hins)
      as (st'' & Hrun' & Hsh & Hed).
    rewrite Hrun in Hrun'. injection Hrun' as <-.
    split_and!; try done.
    + rewrite (shape_ids _ _ Hsh).
      rewrite (list_fmap_alter node_id (append_node n) id)
        by (by apply Forall_forall).
      rewrite list_alter_id by done. by rewrite fmap_app.
    + intros r. rewrite Hed.
      destruct (decide (top = r)) as [->|Hne].
      * rewrite list_lookup_alter_eq.
        by destruct ((store self ++ [fresh]) !! r).
      * by rewrite list_lookup_alter_ne.
  - destruct (for_each (add_edge m l) (inputs t) (store self ++ [fresh]))
      as [st'|e] eqn:Hrun; simpl; [|done].
    intros [= <- <-]. simpl.
    pose proof (add_edges_inv _ _ _ _ _ Hrun) as Hins.
    destruct (add_edges_run m l (inputs t) (store self ++ [fresh]) Hins)
      as (st'' & Hrun' & Hsh & Hed).
    rewrite Hrun in Hrun'. injection Hrun' as <-.
    split_and!; try done.
    rewrite (shape_ids _ _ Hsh). by rewrite fmap_app.
Qed.

Lemma consumers_app l xs ys :
  consumers l (xs ++ ys) = consumers l xs ++ consumers l ys.
Proof. apply flat_map_app. Qed.

Lemma consumers_none l ts :
  (forall c v, c ∈ ts -> v ∈ inputs c -> producer_label v <> l) ->
  consumers l ts = [].
Proof.
  induction ts as [|c ts IH]; intros Hno; [done|].
  unfold consumers in *. simpl.
  rewrite IH by (intros c' v Hc'; apply Hno; by right).
  rewrite (right_id_L [] (++)). unfold consumes.
  rewrite (filter_ext_in _ (fun _ => False)).
  - by induction (inputs c).
  - intros v Hv. split; [|done]. intros Hp.
    eapply Hno; [left | exact Hv | exact Hp].
Qed.

Lemma edges_inv_same visited (a b : DataflowGraphBuilder.t) :
  store a = store b -> _node_map a = _node_map b ->
  edges_inv visited a -> edges_inv visited b.
Proof.
  intros Hst Hm [J1 J2 J3 J4]. split.
  - by rewrite <- Hst.
  - intros l r. rewrite <- Hst, <- Hm. apply J2.
  - intros r g. rewrite <- Hst. apply J3.
  - exact J4.
Qed.

Lemma add_node_edges_inv visited (t : TransformNode)
  (self self' : DataflowGraphBuilder.t) r :
  edges_inv visited self ->
  NoDup (full_label <$> visited ++ [t]) ->
  add_node t self = Ok (r, self') ->
  edges_inv (visited ++ [t]) self'.
Proof.
  intros [J1 J2 J3 J4] Hnodup Hadd.
  apply add_node_inv in Hadd as (_ & Hm & _ & Hins & Hids & Hed).
  set (n := length (store self)) in *. set (l := full_label t) in *.
  rewrite fmap_app in Hnodup. apply NoDup_app in Hnodup as (Hnd & Hfresh & _).
  assert (Hl : l ∉ full_label <$> visited).
  { intros Hin. apply (Hfresh l Hin). simpl. left. }
  assert (Hlen : length (node_id <$> store self) = n) by apply length_fmap.
  assert (Hold : forall p r', _node_map self !! p = Some r' ->
                   r' < n /\ p <> l /\ (node_id <$> store self) !! r' = Some p).
  { intros p r' Hp. pose proof (J2 p r' Hp) as Hid. split_and!; [|  |done].
    - rewrite <- Hlen. by eapply lookup_lt_Some.
    - intros ->. apply Hl. rewrite <- J1. by eapply list_elem_of_lookup_2. }
  split.
  - by rewrite Hids, J1, fmap_app.
  - intros p r'. rewrite Hm, Hids. destruct (decide (l = p)) as [<-|Hne].
    + rewrite lookup_insert_eq. intros [= <-].
      rewrite <- Hlen. by apply list_lookup_middle.
    + rewrite lookup_insert_ne by done. intros Hp.
      apply lookup_app_l_Some. by apply Hold.
  - intros r' g' Hg'.
    assert (Hid' : (node_id <$> store self') !! r' = Some (node_id g'))
      by (by rewrite list_lookup_fmap, Hg').
    specialize (Hed r'). rewrite Hg' in Hed. simpl in Hed.
    rewrite Hids in Hid'. rewrite consumers_app. unfold consumers at 2. simpl.
    rewrite (right_id_L [] (++)).
    destruct (decide (r' < n)) as [Hlt|Hge].
    + rewrite lookup_app_l in Hed by done.
      rewrite lookup_app_l in Hid' by (by rewrite length_fmap).
      destruct (store self !! r') as [g|] eqn:Hg; [|done].
      injection Hed as Hed. rewrite Hed, (J3 r' g Hg).
      assert (Hgid : (node_id <$> store self) !! r' = Some (node_id g))
        by (by rewrite list_lookup_fmap, Hg).
      assert (Hsame : node_id g' = node_id g) by congruence.
      rewrite Hsame. f_equal. unfold targets, consumes. f_equal.
      apply filter_ext_in. intros v Hv. split.
      * destruct (decide (l = producer_label v)) as [<-|Hne].
        -- rewrite lookup_insert_eq. intros [= ->]. lia.
        -- rewrite lookup_insert_ne by done. intros Hp.
           apply Hold in Hp as (_ & _ & Hp). congruence.
      * intros Hp. rewrite Forall_forall in Hins.
        destruct (Hins v Hv) as [r'' Hr''].
        assert (Hne : l <> producer_label v).
        { intros Heq. apply Hl. rewrite <- J1, Heq, Hp.
          by eapply list_elem_of_lookup_2. }
        rewrite lookup_insert_ne in Hr'' |- * by done.
        rewrite Hr''. f_equal.
        apply Hold in Hr'' as (_ & _ & Hr''). rewrite Hp in Hr''.
        eapply NoDup_lookup; [|exact Hr''|exact Hgid]. by rewrite J1.
    + assert (Hlen' : length (node_id <$> store self') = S n).
      { rewrite Hids, length_app, Hlen. simpl. lia. }
      assert (r' = n) as ->.
      { apply lookup_lt_Some in Hg'. rewrite length_fmap in Hlen'. lia. }
      rewrite list_lookup_middle in Hed by done.
      rewrite list_lookup_middle in Hid' by (by rewrite length_fmap).
      simpl in Hed. injection Hed as Hed. injection Hid' as Hid'.
      rewrite Hed, <- Hid'. rewrite consumers_none.
      * simpl. unfold targets, consumes. f_equal.
        apply filter_ext_in. intros v Hv. split.
        -- destruct (decide (l = producer_label v)) as [<-|Hne]; [done|].
           rewrite lookup_insert_ne by done. intros Hp.
           apply Hold in Hp as (Hp & _). lia.
        -- intros ->. apply lookup_insert_eq.
      * intros c v Hc Hv Hp. apply Hl. rewrite <- Hp. by eapply J4.
  - intros c v Hc Hv. rewrite fmap_app. apply elem_of_app.
    apply elem_of_app in Hc as [Hc|Hc].
    + left. by eapply J4.
    + apply list_elem_of_singleton in Hc as ->.
      rewrite Forall_forall in Hins. destruct (Hins v Hv) as [r' Hr'].
      destruct (decide (l = producer_label v)) as [<-|Hne].
      * right. simpl. left.
      * left. rewrite lookup_insert_ne in Hr' by done.
        apply Hold in Hr' as (_ & _ & Hr'). rewrite <- J1.
        by eapply list_elem_of_lookup_2.
Qed.

Lemma added_values (t : TransformNode) (outs : list PValue) :
  added (map (fun v => VisitValue v t) outs) = [].
Proof. by induction outs. Qed.

Lemma added_app xs ys : added (xs ++ ys) = added xs ++ added ys.
Proof. apply flat_map_app. Qed.

Lemma added_forest ts :
  Forall (fun t => Forall (fun t' => labelled t' = true) (applications t) ->
                   added (visit_node t) = applications t) ts ->
  Forall (fun t' => labelled t' = true) (flat_map applications ts) ->
  added (flat_map visit_node ts) = flat_map applications ts.
Proof.
  induction 1 as [|t ts Ht _ IH]; simpl; [done|].
  intros [Hlab1 Hlab2]%Forall_app. by rewrite added_app, Ht, IH.
Qed.

Lemma added_visit_node t :
  Forall (fun t' => labelled t' = true) (applications t) ->
  added (visit_node t) = applications t.
Proof.
  induction t as [l i o | l i o ps IH] using TransformNode_nested_ind.
  - intros _. simpl. unfold added. simpl. f_equal. apply added_values.
  - intros [Hl Hlab]%Forall_cons. simpl in Hl. apply negb_true_iff in Hl.
    simpl. unfold added at 1. simpl. rewrite Hl. simpl. f_equal.
    fold (added (flat_map visit_node ps
                 ++ LeaveComposite (Composite l i o ps)
                    :: map (fun v => VisitValue v (Composite l i o ps)) o)).
    rewrite added_app, (added_forest ps IH Hlab).
    unfold added at 1. simpl.
    fold (added (map (fun v => VisitValue v (Composite l i o ps)) o)).
    by rewrite added_values, (right_id_L [] (++)).
Qed.

Lemma added_pipeline (p : Pipeline) :
  composites_labelled p -> added (pipeline_visit p) = pipeline_applications p.
Proof.
  intros Hlab. unfold pipeline_visit, root. simpl. unfold added. simpl.
  fold (added (flat_map visit_node (root_parts p)
               ++ [LeaveComposite (Composite EmptyString [] [] (root_parts p))])).
  rewrite added_app, added_forest; [| |exact Hlab].
  - unfold added. simpl. by rewrite (right_id_L [] (++)).
  - apply Forall_forall. intros t _. apply added_visit_node.
Qed.

Lemma on_event_edges_inv visited e (self self' : DataflowGraphBuilder.t) :
  edges_inv visited self ->
  NoDup (full_label <$> visited ++ added_by e) ->
  on_event self e = Ok self' ->
  edges_inv (visited ++ added_by e) self'.
Proof.
  intros Hinv Hnodup. destruct e as [n|n|n|v n]; simpl in *.
  - unfold enter_composite_transform.
    destruct (Nat.eqb (String.length (full_label n)) 0).
    + intros [= <-]. by rewrite (right_id_L [] (++)).
    + destruct (add_node n self) as [[g self1]|e] eqn:Hadd; simpl; [|done].
      intros [= <-].
      eapply edges_inv_same; [| |by eapply add_node_edges_inv]; done.
  - unfold leave_composite_transform. rewrite (right_id_L [] (++)).
    destruct (Nat.eqb (String.length (full_label n)) 0).
    + by intros [= <-].
    + destruct (_node_stack self); [done|]. intros [= <-].
      eapply edges_inv_same; [| |exact Hinv]; done.
  - unfold visit_transform.
    destruct (add_node n self) as [[g self1]|e] eqn:Hadd; simpl; [|done].
    intros [= <-]. by eapply add_node_edges_inv.
  - intros [= <-]. by rewrite (right_id_L [] (++)).
Qed.

Lemma run_edges_inv evs : forall visited (self self' : DataflowGraphBuilder.t),
  edges_inv visited self ->
  NoDup (full_label <$> visited ++ added evs) ->
  for_each on_event evs self = Ok self' ->
  edges_inv (visited ++ added evs) self'.
Proof.
  induction evs as [|e evs IH]; intros visited self self' Hinv Hnodup; simpl.
  - intros [= <-]. unfold added. simpl. by rewrite (right_id_L [] (++)).
  - destruct (on_event self e) as [self1|err] eqn:Hstep; simpl; [|done].
    intros Hrun. unfold added in *. simpl in *.
    rewrite (assoc_L (++)) in Hnodup |- *.
    eapply IH; [|exact Hnodup|exact Hrun].
    eapply on_event_edges_inv; [exact Hinv| |exact Hstep].
    rewrite fmap_app in Hnodup. by apply NoDup_app in Hnodup as (? & _).
Qed.

Lemma edges_inv_init : edges_inv [] init.
Proof.
  split; simpl.
  - done.
  - intros l r Hl. by rewrite lookup_empty in Hl.
  - intros r g Hg. by rewrite lookup_nil in Hg.
  - intros c v Hc. by apply elem_of_nil in Hc.
Qed.

(** Every node of the store is named after its label by [display_name]. *)
Lemma expected_names t : forall n,
  Forall (fun s : Shape => s.1.2 = display_name s.1.1) (expected n t).
Proof.
  induction t as [l i o | l i o ps IH] using TransformNode_nested_ind;
    intros n.
  - by repeat constructor.
  - rewrite expected_composite. constructor; [done|].
    generalize (S n). induction IH as [|t ts Ht _ IHts]; intros m; simpl.
    + constructor.
    + apply Forall_app. split; [apply Ht | apply IHts].
Qed.

Lemma expected_forest_names ts n :
  Forall (fun s : Shape => s.1.2 = display_name s.1.1) (expected_forest n ts).
Proof.
  revert n. induction ts as [|t ts IH]; intros n; simpl.
  - constructor.
  - apply Forall_app. split; [apply expected_names | apply IH].
Qed.

(** The whole traversal: it succeeds, the graph can be read back, and
    the nodes of the graph are the store entries in the order of the
    traversal. *)
Lemma visit_graph (p : Pipeline) :
  composites_labelled p ->
  producers_first [] (pipeline_applications p) ->
  exists self forest,
    for_each on_event (pipeline_visit p) init = Ok self
    /\ visit p = Ok (_nodes self, store self)
    /\ to_graph (_nodes self, store self) = Some forest
    /\ map graph_nesting forest = map transform_nesting (root_parts p)
    /\ graph_view <$> flat_map graph_nodes forest = node_view <$> store self
    /\ length (store self) = length (pipeline_applications p)
    /\ Forall (fun g => node_name g = display_name (node_id g)) (store self).
Proof.
  intros Hlab Hprod.
  destruct (pipeline_runs p Hlab Hprod) as (self & Hrun & Hn & Hsh).
  assert (Hnames : Forall (fun g => node_name g = display_name (node_id g))
                     (store self)).
  { pose proof (expected_forest_names (root_parts p) 0) as Hexp.
    rewrite <- Hsh in Hexp. by apply Forall_fmap in Hexp. }
  assert (Hlen : length (store self) = length (pipeline_applications p)).
  { by rewrite <- (length_fmap shape), Hsh, length_expected_forest. }
  assert (Hall : Forall tree_resolves (root_parts p)).
  { apply Forall_forall. intros t _. apply tree_resolves_all. }
  destruct (forest_resolves_of (root_parts p) Hall (store self) 0
              (S (length (store self))) [] [])
    as (forest & Hres & Hids & Hviews).
  { by rewrite Hsh, (right_id_L [] (++)). }
  { done. }
  { fold (pipeline_applications p). lia. }
  exists self, forest. split_and!; try done.
  - unfold visit. by rewrite Hrun.
  - simpl. by rewrite Hn.
  - rewrite Hviews. fold (pipeline_applications p). rewrite <- Hlen.
    simpl. rewrite <- (length_fmap node_view). apply firstn_all.
Qed.

Lemma nesting_roots (gs : list Graph) (ts : list TransformNode) :
  map graph_nesting gs = map transform_nesting ts ->
  graph_id <$> gs = full_label <$> ts.
Proof.
  revert ts. induction gs as [|g gs IH]; intros [|t ts] Heq;
    simpl in Heq; try done.
  injection Heq as Hhead Htail. rewrite !fmap_cons, (IH ts Htail). f_equal.
  destruct g, t; simpl in *; congruence.
Qed.

Lemma view_ids (forest : list Graph) (st : list GraphNode) :
  graph_view <$> flat_map graph_nodes forest = node_view <$> st ->
  graph_id <$> flat_map graph_nodes forest = node_id <$> st.
Proof.
  intros Hv. apply (f_equal (fmap (fun v : View => v.1.1))) in Hv.
  rewrite <- !list_fmap_compose in Hv. exact Hv.
Qed.

Lemma elem_of_consumers e l ts :
  e ∈ consumers l ts <->
  exists c v, c ∈ ts /\ full_label c = e /\ v ∈ inputs c /\ producer_label v = l.
Proof.
  unfold consumers. rewrite list_elem_of_In, in_flat_map. split.
  - intros (c & Hc & He). apply list_elem_of_In in Hc, He.
    unfold consumes in He. apply list_elem_of_fmap in He as (v & -> & Hv).
    apply list_elem_of_filter in Hv as [Hp Hv]. by exists c, v.
  - intros (c & v & Hc & <- & Hv & Hp). exists c.
    rewrite <- !list_elem_of_In. split; [done|].
    unfold consumes. apply list_elem_of_fmap. exists v. split; [done|].
    by apply list_elem_of_filter.
Qed.

Lemma NoDup_fmap_eq {A B} (f : A -> B) (l : list A) x y :
  NoDup (f <$> l) -> x ∈ l -> y ∈ l -> f x = f y -> x = y.
Proof.
  intros Hnd [i Hi]%list_elem_of_lookup [j Hj]%list_elem_of_lookup Hxy.
  assert (i = j) as ->; [|congruence].
  eapply NoDup_lookup; [exact Hnd| |].
  - by rewrite list_lookup_fmap, Hi.
  - by rewrite list_lookup_fmap, Hj, Hxy.
Qed.

(** ** Graph Builder: the claims *)

(** C1.  A pipeline with N transform applications (composite and leaf,
    the root composite apart) yields a nested structure with exactly N
    graph nodes over all nesting levels; their identifiers are the full
    labels of the applications, in the order of the traversal, hence
    pairwise distinct; the top level holds the parts of the root, so the
    root composite itself is no graph node. *)
Theorem graph_builder_one_node_per_application (p : Pipeline) :
  composites_labelled p ->
  producers_first [] (pipeline_applications p) ->
  NoDup (full_label <$> pipeline_applications p) ->
  exists returned forest,
    visit p = Ok returned
    /\ to_graph returned = Some forest
    /\ length (flat_map graph_nodes forest)
       = length (pipeline_applications p)
    /\ graph_id <$> flat_map graph_nodes forest
       = full_label <$> pipeline_applications p
    /\ NoDup (graph_id <$> flat_map graph_nodes forest)
    /\ graph_id <$> forest = full_label <$> root_parts p.
Proof.
  intros Hlab Hprod Hnodup.
  destruct (visit_graph p Hlab Hprod)
    as (self & forest & Hrun & Hvisit & Hgraph & Hroots & Hviews & Hlen & _).
  pose proof (run_edges_inv (pipeline_visit p) [] init self edges_inv_init)
    as Hinv.
  rewrite added_pipeline in Hinv by done. simpl in Hinv.
  destruct (Hinv Hnodup Hrun) as [J1 _ _ _].
  assert (Hids : graph_id <$> flat_map graph_nodes forest
                 = full_label <$> pipeline_applications p).
  { by rewrite (view_ids _ _ Hviews). }
  exists (_nodes self, store self), forest. split_and!; try done.
  - rewrite <- (length_fmap graph_id), Hids. apply length_fmap.
  - by rewrite Hids.
  - by apply nesting_roots.
Qed.

(** C2.  After the traversal, for graph nodes P and C, where C stands
    for the transform application [c]: the edge list of P contains the
    identifier of C if and only if some input of [c] was produced under
    the label of P; and an edge list holds nothing but identifiers of
    graph nodes, so there are no other pairs. *)
Theorem graph_builder_edges (p : Pipeline) :
  composites_labelled p ->
  producers_first [] (pipeline_applications p) ->
  NoDup (full_label <$> pipeline_applications p) ->
  exists returned forest,
    visit p = Ok returned
    /\ to_graph returned = Some forest
    /\ forall P, P ∈ flat_map graph_nodes forest ->
         (forall C c,
            C ∈ flat_map graph_nodes forest ->
            c ∈ pipeline_applications p ->
            graph_id C = full_label c ->
            (graph_id C ∈ graph_edges P <->
             exists v, v ∈ inputs c /\ producer_label v = graph_id P))
         /\ (forall e, e ∈ graph_edges P ->
               exists C, C ∈ flat_map graph_nodes forest /\ graph_id C = e).
Proof.
  intros Hlab Hprod Hnodup.
  destruct (visit_graph p Hlab Hprod)
    as (self & forest & Hrun & Hvisit & Hgraph & Hroots & Hviews & Hlen & _).
  pose proof (run_edges_inv (pipeline_visit p) [] init self edges_inv_init)
    as Hinv.
  rewrite added_pipeline in Hinv by done. simpl in Hinv.
  destruct (Hinv Hnodup Hrun) as [J1 _ J3 _].
  exists (_nodes self, store self), forest. split_and!; try done.
  intros P HP.
  assert (HPv : graph_view P ∈ node_view <$> store self)
    by (rewrite <- Hviews; by apply list_elem_of_fmap_2).
  apply list_elem_of_fmap in HPv as (g & Hg & [r Hr]%list_elem_of_lookup).
  injection Hg as Hgid Hgname Hgedges.
  rewrite Hgedges, Hgid, (J3 r g Hr). split.
  - intros C c HC Hc HCc. rewrite elem_of_consumers. split.
    + intros (c' & v & Hc' & Hlabel & Hv & Hp).
      assert (c' = c) as ->; [|by exists v].
      eapply NoDup_fmap_eq; [exact Hnodup|done..|congruence].
    + intros (v & Hv & Hp). by exists c, v.
  - intros e (c & v & Hc & Hlabel & _)%elem_of_consumers.
    assert (He : e ∈ graph_id <$> flat_map graph_nodes forest).
    { rewrite (view_ids _ _ Hviews), J1, <- Hlabel.
      by apply list_elem_of_fmap_2. }
    apply list_elem_of_fmap in He as (C & -> & HC). by exists C.
Qed.

Lemma sample_labelled : composites_labelled Sample.pipeline.
Proof. repeat constructor. Defined.

Lemma sample_producers_first :
  producers_first [] (pipeline_applications Sample.pipeline).
Proof. simpl. repeat constructor. Defined.

Lemma sample_labels_unique :
  NoDup (full_label <$> pipeline_applications Sample.pipeline).
Proof. apply (bool_decide_unpack _). vm_compute. exact I. Defined.

Lemma graph_builder_one_node_per_application_witness :
  exists returned forest,
    visit Sample.pipeline = Ok returned
    /\ to_graph returned = Some forest
    /\ length (flat_map graph_nodes forest)
       = length (pipeline_applications Sample.pipeline)
    /\ graph_id <$> flat_map graph_nodes forest
       = full_label <$> pipeline_applications Sample.pipeline
    /\ NoDup (graph_id <$> flat_map graph_nodes forest)
    /\ graph_id <$> forest = full_label <$> root_parts Sample.pipeline.
Proof.
  exact (graph_builder_one_node_per_application Sample.pipeline
           sample_labelled sample_producers_first sample_labels_unique).
Defined.

Lemma graph_builder_edges_witness :
  exists returned forest,
    visit Sample.pipeline = Ok returned
    /\ to_graph returned = Some forest
    /\ forall P, P ∈ flat_map graph_nodes forest ->
         (forall C c,
            C ∈ flat_map graph_nodes forest ->
            c ∈ pipeline_applications Sample.pipeline ->
            graph_id C = full_label c ->
            (graph_id C ∈ graph_edges P <->
             exists v, v ∈ inputs c /\ producer_label v = graph_id P))
         /\ (forall e, e ∈ graph_edges P ->
               exists C, C ∈ flat_map graph_nodes forest /\ graph_id C = e).
Proof.
  exact (graph_builder_edges Sample.pipeline
           sample_labelled sample_producers_first sample_labels_unique).
Defined.

(** ** The display name *)

Lemma rfind_split c s : forall i acc,
  (rfind_from c s i acc = acc /\ split c s = [s])
  \/ exists (k : nat) seg segs,
       rfind_from c s i acc = (i + Z.of_nat k)%Z
       /\ split c s = seg :: segs
       /\ last segs = Some (slice_from (S k) s).
Proof.
  induction s as [|a s IH]; intros i acc; simpl.
  - by left.
  - destruct (Ascii.eqb a c) eqn:Hac.
    + right. destruct (IH (i + 1)%Z i) as [[Hr Hs]|(k & seg & segs & Hr & Hs & Hl)].
      * exists 0, EmptyString, [s]. rewrite Hr, Hs. split_and!; [lia|done..].
      * exists (S k), EmptyString, (seg :: segs). rewrite Hr, Hs.
        split_and!; [lia|done|].
        destruct segs as [|seg' segs]; [done|]. exact Hl.
    + destruct (IH (i + 1)%Z acc) as [[Hr Hs]|(k & seg & segs & Hr & Hs & Hl)].
      * left. by rewrite Hr, Hs.
      * right. exists (S k), (String a seg), segs. rewrite Hr, Hs.
        split_and!; [lia|done..].
Qed.

(** The name is the last segment of the label exactly when the last
    slash of the label is not its first character. *)
Lemma display_name_last_segment label :
  display_name label = last_segment label <-> rfind slash label <> 0%Z.
Proof.
  unfold display_name, last_segment, rfind.
  destruct (rfind_split slash label 0 (-1))
    as [[Hr Hs]|(k & seg & segs & Hr & Hs & Hl)]; rewrite Hr, Hs.
  - simpl. split; [lia|done].
  - assert (Hlast : last (seg :: segs) = Some (slice_from (S k) label)).
    { destruct segs; [done | exact Hl]. }
    rewrite Hlast. simpl default. destruct k as [|k].
    + simpl. split; [|done]. destruct label as [|a s]; [done|].
      intros Heq. apply (f_equal String.length) in Heq. simpl in Heq. lia.
    + split; [lia|]. intros _.
      destruct (Z.gtb_spec (0 + Z.of_nat (S k)) 0) as [_|Hle]; [|lia].
      by replace (Z.to_nat (0 + Z.of_nat (S k) + 1)) with (S (S k)) by lia.
Qed.

(** C6.  The label [/x] has one separator and the last segment [x], yet
    the graph node that Graph Builder creates for a transform so
    labelled is named [/x]: the guard [slash_index > 0] treats a slash
    at index 0 like no slash at all. *)
Theorem display_name_leading_slash :
  last_segment "/x" = "x"
  /\ display_name "/x" = "/x"
  /\ exists returned,
       visit (mkPipeline [Transform "/x" [] []]) = Ok returned
       /\ to_graph returned = Some [Node "/x" "/x" [] []].
Proof.
  split_and!; [reflexivity..|].
  eexists. split; vm_compute; reflexivity.
Qed.

(** Every graph node is named by [display_name]; so its name is the last
    segment of its label unless the only slash of the label leads it. *)
Lemma graph_builder_names (p : Pipeline) :
  composites_labelled p ->
  producers_first [] (pipeline_applications p) ->
  exists returned forest,
    visit p = Ok returned
    /\ to_graph returned = Some forest
    /\ forall g, g ∈ flat_map graph_nodes forest ->
         graph_name g = display_name (graph_id g)
         /\ (graph_name g = last_segment (graph_id g)
             <-> rfind slash (graph_id g) <> 0%Z).
Proof.
  intros Hlab Hprod.
  destruct (visit_graph p Hlab Hprod)
    as (self & forest & _ & Hvisit & Hgraph & _ & Hviews & _ & Hnames).
  exists (_nodes self, store self), forest. split_and!; try done.
  intros g Hg.
  assert (Hv : graph_view g ∈ node_view <$> store self)
    by (rewrite <- Hviews; by apply list_elem_of_fmap_2).
  apply list_elem_of_fmap in Hv as (n & Hn & Hin).
  injection Hn as Hid Hname _. rewrite Forall_forall in Hnames.
  assert (Hdn : graph_name g = display_name (graph_id g)).
  { rewrite Hid, Hname. by apply Hnames. }
  split; [done|]. rewrite Hdn. apply display_name_last_segment.
Qed.

(** ** Data Collector: the claims *)

Import DataflowDataCollector.

Lemma pvalue_class_eqb_eq a b : pvalue_class_eqb a b = true <-> a = b.
Proof.
  revert b. induction a as [| |n a IH]; intros [| |m b]; simpl;
    try (split; [discriminate || done | discriminate || done]).
  rewrite andb_true_iff, String.eqb_eq, IH. split.
  - by intros [-> ->].
  - by intros [= -> ->].
Qed.

(** C3.  When the collector visits a collection value, whatever the
    size of the collection, the record it stores under the producer's
    label has as [data] the first 25 items of the materialized sequence,
    in order and never more than 25, and as [count] the number of all
    its items. *)
Theorem collector_sample_bounded (value : PValue) (producer_node : TransformNode)
  (self : DataflowDataCollector.t) :
  value_type value = PCollection_class ->
  exists collection,
    visit_value value producer_node self !! full_label producer_node
      = Some collection
    /\ data collection = take 25 (get value)
    /\ length (data collection) <= 25
    /\ length (data collection) = Nat.min 25 (length (get value))
    /\ count collection = length (get value).
Proof.
  intros Htype. unfold visit_value.
  apply pvalue_class_eqb_eq in Htype. rewrite Htype.
  eexists. rewrite lookup_insert_eq. split_and!; try reflexivity.
  - cbn [data]. rewrite length_take. lia.
  - cbn [data]. apply length_take.
Qed.

Lemma collector_sample_bounded_witness :
  exists collection,
    visit_value (mkPValue PCollection_class "big" (replicate 40 (VInt 7)))
      (Transform "big" [] []) init !! "big" = Some collection
    /\ data collection = take 25 (replicate 40 (VInt 7))
    /\ length (data collection) <= 25
    /\ length (data collection) = Nat.min 25 40
    /\ count collection = 40.
Proof.
  exact (collector_sample_bounded
           (mkPValue PCollection_class "big" (replicate 40 (VInt 7)))
           (Transform "big" [] []) init eq_refl).
Defined.

(** C9.  The collector records an entry for a visited value exactly
    when the type of the value is the collection class itself; a value
    of any other type, a class derived from the collection class
    included, leaves the mapping as it was. *)
Theorem collector_exact_type_only (value : PValue) (producer_node : TransformNode)
  (self : DataflowDataCollector.t) :
  (value_type value = PCollection_class ->
     visit_value value producer_node self
     = <[full_label producer_node :=
           mkCollection (length (get value)) (take 25 (get value))]> self)
  /\ (value_type value <> PCollection_class ->
        visit_value value producer_node self = self)
  /\ (forall n base,
        value_type value = Derived_class n base ->
        visit_value value producer_node self = self).
Proof.
  unfold visit_value. split_and!.
  - intros Htype. apply pvalue_class_eqb_eq in Htype. by rewrite Htype.
  - intros Htype. destruct (pvalue_class_eqb _ _) eqn:Heq; [|done].
    by apply pvalue_class_eqb_eq in Heq.
  - intros n base Htype. by rewrite Htype.
Qed.

(** A strict subclass of the collection class, seen by a fresh
    collector: no entry. *)
Example collector_skips_subclass :
  let value := mkPValue (Derived_class "KeyedPCollection" PCollection_class)
                 "read" [VInt 1] in
  is_pcollection_subclass (value_type value) = true
  /\ visit_value value (Transform "read" [] [value]) init = init.
Proof. split; reflexivity. Qed.

(** ** Local Catalog: the claims *)

Lemma ns_get_unbound name (ns : gmap string PyVal) :
  ns !! name = None -> ns_get name ns = VNone.
Proof. unfold ns_get. by intros ->. Qed.

Lemma ns_get_bound name (ns : gmap string PyVal) v :
  ns !! name = Some v -> ns_get name ns = v.
Proof. unfold ns_get. by intros ->. Qed.

(** C4.  Adding a source named [name]: when the namespace binds [name]
    to a list, the source registered reads that very list and the source
    handed in is ignored; when it binds [name] to a value that is
    neither None nor a list, [add_source] raises TypeError; when [name]
    is unbound or bound to None, the source handed in is registered
    unchanged. *)
Theorem add_source_by_namespace (name : string) (source : PyVal)
  (self : DataflowLocalCatalog.t) (w : World) :
  (forall l,
     user_ns w !! name = Some (VList l) ->
     DataflowLocalCatalog.add_source name source self w
     = Ok (DataflowLocalCatalog.mkCatalog
             (<[name := VListSource l]> (DataflowLocalCatalog.sources self))
             (DataflowLocalCatalog.sinks self))
     /\ DataflowLocalCatalog.read (VListSource l) w = lists w !! l)
  /\ (forall v,
        user_ns w !! name = Some v ->
        v <> VNone -> (forall l, v <> VList l) ->
        DataflowLocalCatalog.add_source name source self w
        = Raise (mkException TypeError
                   (dquote ++ name ++ dquote ++ " does not represent a list")%string))
  /\ (user_ns w !! name = None \/ user_ns w !! name = Some VNone ->
        DataflowLocalCatalog.add_source name source self w
        = Ok (DataflowLocalCatalog.mkCatalog
                (<[name := source]> (DataflowLocalCatalog.sources self))
                (DataflowLocalCatalog.sinks self))).
Proof.
  unfold DataflowLocalCatalog.add_source. split_and!.
  - intros l Hl. by rewrite (ns_get_bound _ _ _ Hl).
  - intros v Hv Hnone Hlist. rewrite (ns_get_bound _ _ _ Hv).
    destruct v; [by destruct Hnone|..]; simpl; try done.
    exfalso. by eapply Hlist.
  - intros [Hn|Hn].
    + by rewrite (ns_get_unbound _ _ Hn).
    + by rewrite (ns_get_bound _ _ _ Hn).
Qed.

(** The scenarios of the specification: a list bound to [in], and a
    number bound to [in]. *)
Example add_source_list_bound :
  let w := mkWorld {["in" := VList 0]} [[VInt 1; VInt 2; VInt 3]] [] in
  exists catalog,
    DataflowLocalCatalog.add_source "in" (VObject "TextFileSource" "gs://in")
      DataflowLocalCatalog.empty w = Ok catalog
    /\ DataflowLocalCatalog.sources catalog !! "in" = Some (VListSource 0)
    /\ DataflowLocalCatalog.read (VListSource 0) w
       = Some [VInt 1; VInt 2; VInt 3].
Proof. eexists. split_and!; vm_compute; reflexivity. Qed.

Example add_source_number_bound :
  DataflowLocalCatalog.add_source "in" (VObject "TextFileSource" "gs://in")
    DataflowLocalCatalog.empty (mkWorld {["in" := VInt 5]} [] [])
  = Raise (mkException TypeError
             (dquote ++ "in" ++ dquote ++ " does not represent a list")%string).
Proof. vm_compute. reflexivity. Qed.

Lemma write_all_list data items : forall w old,
  lists w !! data = Some old ->
  lists (DataflowLocalCatalog.write_all (VListSink data) items w) !! data
  = Some (old ++ items)
  /\ user_ns (DataflowLocalCatalog.write_all (VListSink data) items w) = user_ns w
  /\ forall r, r <> data ->
       lists (DataflowLocalCatalog.write_all (VListSink data) items w) !! r
       = lists w !! r.
Proof.
  induction items as [|o items IH]; intros w old Hold.
  - simpl. rewrite (right_id_L [] (++)). done.
  - change (DataflowLocalCatalog.write_all (VListSink data) (o :: items) w)
      with (DataflowLocalCatalog.write_all (VListSink data) items
              (DataflowLocalCatalog.Write (VListSink data) o w)).
    destruct (IH (DataflowLocalCatalog.Write (VListSink data) o w) (old ++ [o]))
      as (Hl & Hns & Hother).
    { simpl. by rewrite list_lookup_alter_eq, Hold. }
    split_and!.
    + by rewrite Hl, <- (assoc_L (++)).
    + by rewrite Hns.
    + intros r Hr. rewrite Hother by done. simpl.
      by rewrite list_lookup_alter_ne.
Qed.

(** C5.  Creating a sink named [name] makes a new empty list, binds it
    under [name] in the namespace whatever was bound there before, and
    registers a sink whose writer appends every item written to that
    very list: after any sequence of writes the list bound under [name]
    holds exactly the items written, in order. *)
Theorem add_sink_fresh_list (name : string) (self : DataflowLocalCatalog.t)
  (w : World) :
  exists data,
    let '(self', w') := DataflowLocalCatalog.add_sink name self w in
    lists w !! data = None
    /\ user_ns w' !! name = Some (VList data)
    /\ lists w' !! data = Some []
    /\ DataflowLocalCatalog.sinks self' !! name = Some (VListSink data)
    /\ (forall other, other <> name -> user_ns w' !! other = user_ns w !! other)
    /\ (forall r, r <> data -> lists w' !! r = lists w !! r)
    /\ forall items,
         let w'' := DataflowLocalCatalog.write_all (VListSink data) items w' in
         user_ns w'' !! name = Some (VList data)
         /\ lists w'' !! data = Some items.
Proof.
  exists (length (lists w)). simpl. split_and!.
  - by apply lookup_ge_None.
  - apply lookup_insert_eq.
  - by apply list_lookup_middle.
  - apply lookup_insert_eq.
  - intros other Hother. by apply lookup_insert_ne.
  - intros r Hr. destruct (decide (r < length (lists w))) as [Hlt|Hge].
    + by apply lookup_app_l.
    + rewrite !lookup_ge_None_2; [done|lia|]. rewrite length_app. simpl. lia.
  - intros items.
    destruct (write_all_list (length (lists w)) items
                {| user_ns := <[name := VList (length (lists w))]> (user_ns w);
                   lists := lists w ++ [[]]; stderr := stderr w |} [])
      as (Hl & Hns & _).
    { simpl. by apply list_lookup_middle. }
    split.
    + rewrite Hns. apply lookup_insert_eq.
    + exact Hl.
Qed.

(** The scenario of the specification: [out] was bound before. *)
Example add_sink_rebinds :
  let w := mkWorld {["out" := VList 0]} [[VStr "old"]] [] in
  let '(catalog, w') :=
    DataflowLocalCatalog.add_sink "out" DataflowLocalCatalog.empty w in
  user_ns w' !! "out" = Some (VList 1)
  /\ lists w' = [[VStr "old"]; []]
  /\ lists (DataflowLocalCatalog.write_all (VListSink 1) [VInt 2; VInt 4; VInt 6] w')
     = [[VStr "old"]; [VInt 2; VInt 4; VInt 6]].
Proof. vm_compute. split_and!; reflexivity. Qed.

(** C10.  When the name of the input is not bound in the namespace, the
    single-transform executor's [add_source] raises nothing and registers
    None as the source of that name, and so does the catalog that
    [execute] builds, with or without an output. *)
Theorem ptransform_unbound_input_registers_none (input_name : string)
  (output_name : option string) (w : World) :
  user_ns w !! input_name = None ->
  DataflowLocalCatalog.add_source input_name VNone
    DataflowLocalCatalog.empty w
  = Ok (DataflowLocalCatalog.mkCatalog {[input_name := VNone]} ∅)
  /\ exists catalog w',
       PTransformExecutor.execute_catalog input_name output_name w
       = (Ok catalog, w')
       /\ DataflowLocalCatalog.sources catalog !! input_name = Some VNone.
Proof.
  intros Hunbound.
  assert (Hadd : DataflowLocalCatalog.add_source input_name VNone
                   DataflowLocalCatalog.empty w
                 = Ok (DataflowLocalCatalog.mkCatalog {[input_name := VNone]} ∅)).
  { unfold DataflowLocalCatalog.add_source.
    rewrite (ns_get_unbound _ _ Hunbound). simpl. by rewrite insert_empty. }
  split; [exact Hadd|].
  unfold PTransformExecutor.execute_catalog. rewrite Hadd.
  destruct output_name as [output_name|]; simpl; eexists _, _;
    (split; [reflexivity|]); simpl; apply lookup_singleton_eq.
Qed.

Lemma ptransform_unbound_input_registers_none_witness :
  DataflowLocalCatalog.add_source "in" VNone DataflowLocalCatalog.empty
    (mkWorld ∅ [] [])
  = Ok (DataflowLocalCatalog.mkCatalog {["in" := VNone]} ∅)
  /\ exists catalog w',
       PTransformExecutor.execute_catalog "in" (Some "out") (mkWorld ∅ [] [])
       = (Ok catalog, w')
       /\ DataflowLocalCatalog.sources catalog !! "in" = Some VNone.
Proof.
  exact (ptransform_unbound_input_registers_none "in" (Some "out")
           (mkWorld ∅ [] []) eq_refl).
Defined.

(** ** The executors and the magics: the claims *)

Import ExecutorSpec.



Lemma from_namespace_module `{Collaborators} (ns : gmap string PyVal) dict :
  dataflow_module ns = Some dict ->
  DataflowExecutor.from_namespace ns
  = (bad <- DataflowExecutor.malformed (located dict) ;;
     if (bad : bool)
     then Raise (mkException Exception_ DataflowExecutor.no_method_message)
     else Ok (DataflowExecutor.mkExecutor (located dict)
                (method_catalog (located dict)))).
Proof.
  unfold dataflow_module, DataflowExecutor.from_namespace, ns_get.
  destruct (ns !! "dataflow") as [v|]; simpl; [|done].
  destruct v; simpl; try done. by intros [= ->].
Qed.



(** Which error it is: the two configuration errors of the source, and
    the two that come from Python itself. *)
Lemma from_namespace_errors `{Collaborators} (ns : gmap string PyVal) :
  (ns_get "dataflow" ns = VNone ->
     DataflowExecutor.from_namespace ns
     = Raise (mkException Exception_ no_module_message))
  /\ (forall dict,
        dataflow_module ns = Some dict ->
        (located dict = VNone \/ callable (located dict) = false
         \/ exists n argnames,
              located dict = VFunction n argnames /\ length argnames <> 3) ->
        DataflowExecutor.from_namespace ns
        = Raise (mkException Exception_ DataflowExecutor.no_method_message))
  /\ (forall dict n mro,
        dataflow_module ns = Some dict ->
        located dict = VClass n mro ->
        exists msg, DataflowExecutor.from_namespace ns
                    = Raise (mkException TypeError msg)).
Proof.
  split_and!.
  - intros Hnone. unfold DataflowExecutor.from_namespace. by rewrite Hnone.
  - intros dict Hmod Hbad. rewrite (from_namespace_module ns dict Hmod).
    unfold DataflowExecutor.malformed.
    destruct Hbad as [->|[Hcall|(n & args & -> & Hlen)]]; simpl.
    + done.
    + rewrite Hcall. by destruct (is_none (located dict)).
    + apply Nat.eqb_neq in Hlen. by rewrite Hlen.
  - intros dict n mro Hmod Hloc. rewrite (from_namespace_module ns dict Hmod).
    rewrite Hloc. simpl. by eexists.
Qed.

Example from_namespace_main :
  @DataflowExecutor.from_namespace quiet
    {["dataflow" :=
        VModule [("helper", VInt 1);
                 ("main", VFunction "main" ["pipeline"; "catalog"; "args"])]]}
  = Ok (DataflowExecutor.mkExecutor
          (VFunction "main" ["pipeline"; "catalog"; "args"]) None).
Proof. vm_compute. reflexivity. Qed.

Example from_namespace_two_arguments :
  @DataflowExecutor.from_namespace quiet
    {["dataflow" := VModule [("dataflow", VFunction "dataflow" ["p"; "c"])]]}
  = Raise (mkException Exception_ DataflowExecutor.no_method_message).
Proof. vm_compute. reflexivity. Qed.

(** What the handler of the magics does with an error of the body: a
    message that is a string is written and None is returned; any other
    message makes the write raise, and that exception leaves the magic. *)
Lemma magics_handle_errors `{Collaborators} (line : string) (w w' : World)
  (e : PyException) :
  (dataflow_try line w = (Raise e, w') -> dataflow line w = report e w')
  /\ (forall args,
        parse_ptransform line = Some args ->
        ptransform_try args w = (Raise e, w') ->
        ptransform line w = report e w').
Proof.
  split.
  - intros Hbody. unfold dataflow. by rewrite Hbody.
  - intros args Hparse Hbody. unfold ptransform. by rewrite Hparse, Hbody.
Qed.

Lemma report_string `{Collaborators} (e : PyException) (s : string)
  (w : World) :
  message e = VStr s -> report e w = (Ok None, stderr_write s w).
Proof. unfold report. by intros ->. Qed.

Lemma report_other `{Collaborators} (e : PyException) (w : World) :
  (forall s, message e <> VStr s) ->
  report e w = (Raise (stderr_refuses (message e)), w).
Proof.
  unfold report. intros Hno. destruct (message e); try done.
  by destruct (Hno s).
Qed.

(** C8.  An error whose message is not a string is not reported: when
    the callback of the dataflow command, or the construction of the
    pipeline of the ptransform command, raises KeyError(3), the write to
    the error stream raises inside the handler and the magic propagates
    that exception instead of returning None; nothing reaches the error
    stream.  The same magics report an error whose message is a string. *)
Theorem magics_propagate_non_string_message :
  @dataflow failing_lookup "run" MoreSpec.notebook
  = (Raise (mkException TypeError "expected a character buffer object"),
     MoreSpec.notebook)
  /\ @ptransform failing_lookup "run" MoreSpec.session
     = (Raise (mkException TypeError "expected a character buffer object"),
        mkWorld (<["out" := VList 2]> (user_ns MoreSpec.session))
          (lists MoreSpec.session ++ [[]]) (stderr MoreSpec.session))
  /\ @dataflow failing_lookup "run" (mkWorld ∅ [] [])
     = (Ok None, mkWorld ∅ [] [no_module_message]).
Proof. split_and!; vm_compute; reflexivity. Qed.

(** Where the errors of the bodies come from. *)
Lemma dataflow_try_errors `{Collaborators} (line : string) (w : World)
  (e : PyException) :
  (DataflowExecutor.from_namespace (user_ns w) = Raise e ->
     dataflow_try line w = (Raise e, w))
  /\ (forall executor args w',
        DataflowExecutor.from_namespace (user_ns w) = Ok executor ->
        parse_dataflow (DataflowExecutor._create_dataflow executor) line
        = Some args ->
        (new_catalog (DataflowExecutor._catalog executor) args w
         = (Raise e, w')
         \/ exists catalog w1,
              new_catalog (DataflowExecutor._catalog executor) args w
              = (Ok catalog, w1)
              /\ (call_dataflow_method
                    (DataflowExecutor._create_dataflow executor)
                    (mkPipeline []) catalog args w1 = (Raise e, w')
                  \/ exists pipeline w2,
                       call_dataflow_method
                         (DataflowExecutor._create_dataflow executor)
                         (mkPipeline []) catalog args w1 = (Ok pipeline, w2)
                       /\ pipeline_run pipeline w2 = (Raise e, w'))) ->
        dataflow_try line w = (Raise e, w')).
Proof.
  unfold dataflow_try. split.
  - by intros ->.
  - intros executor args w' -> Hparse Hraise.
    unfold DataflowExecutor.execute, DataflowExecutor._run. rewrite Hparse.
    destruct Hraise as [->|(catalog & w1 & -> & [->|(pipeline & w2 & -> & ->)])];
      done.
Qed.

Lemma ptransform_try_errors `{Collaborators} (args : PTransformArgs)
  (w : World) (e : PyException) :
  (PTransformExecutor.from_namespace (user_ns w) (args_name args) = Raise e ->
     ptransform_try args w = (Raise e, w))
  /\ (forall executor,
        PTransformExecutor.from_namespace (user_ns w) (args_name args)
        = Ok executor ->
        DataflowLocalCatalog.add_source (args_input args) VNone
          DataflowLocalCatalog.empty w = Raise e ->
        ptransform_try args w = (Raise e, w)).
Proof.
  unfold ptransform_try. split.
  - by intros ->.
  - intros executor -> Hadd.
    unfold PTransformExecutor.execute, PTransformExecutor.execute_catalog.
    by rewrite Hadd.
Qed.

(** A session without the module, and one whose input is no list. *)
Example dataflow_without_module :
  @dataflow quiet "run" (mkWorld ∅ [] [])
  = (Ok None, mkWorld ∅ [] [no_module_message]).
Proof. vm_compute. reflexivity. Qed.

Example ptransform_input_not_a_list :
  let ns : gmap string PyVal :=
    {["dataflow" :=
        VModule [("Double", VClass "Double" ["Double"; "PTransform"; "object"])];
      "in" := VInt 5]} in
  @ptransform quiet "run --name Double --input in --output out" (mkWorld ns [] [])
  = (Ok None, mkWorld ns []
             [(dquote ++ "in" ++ dquote ++ " does not represent a list")%string]).
Proof. vm_compute. reflexivity. Qed.

(** ** Further properties of the visitors *)

(** Nesting is preserved: the graph returned nests the labels exactly as
    the pipeline nests its transforms under the root. *)
Theorem graph_builder_nesting (p : Pipeline) :
  composites_labelled p ->
  producers_first [] (pipeline_applications p) ->
  exists returned forest,
    DataflowGraphBuilder.visit p = Ok returned
    /\ to_graph returned = Some forest
    /\ map graph_nesting forest = map transform_nesting (root_parts p).
Proof.
  intros Hlab Hprod.
  destruct (visit_graph p Hlab Hprod)
    as (self & forest & _ & Hvisit & Hgraph & Hnest & _).
  by exists (_nodes self, store self), forest.
Qed.

Lemma graph_builder_nesting_witness :
  exists returned forest,
    DataflowGraphBuilder.visit Sample.pipeline = Ok returned
    /\ to_graph returned = Some forest
    /\ map graph_nesting forest
       = map transform_nesting (root_parts Sample.pipeline).
Proof.
  exact (graph_builder_nesting Sample.pipeline
           sample_labelled sample_producers_first).
Defined.

Lemma graph_builder_names_witness :
  exists returned forest,
    DataflowGraphBuilder.visit Sample.pipeline = Ok returned
    /\ to_graph returned = Some forest
    /\ forall g, g ∈ flat_map graph_nodes forest ->
         graph_name g = display_name (graph_id g)
         /\ (graph_name g = last_segment (graph_id g)
             <-> rfind slash (graph_id g) <> 0%Z).
Proof.
  exact (graph_builder_names Sample.pipeline
           sample_labelled sample_producers_first).
Defined.

Lemma add_edges_unknown (m : gmap string ref) label ins v :
  v ∈ ins -> m !! producer_label v = None ->
  forall st : list GraphNode,
    exists e, for_each (add_edge m label) ins st = Raise e
              /\ exc_type e = KeyError.
Proof.
  intros Hv Hnone. induction ins as [|v' ins IH]; intros st.
  - by apply elem_of_nil in Hv.
  - simpl. unfold add_edge at 1.
    destruct (m !! producer_label v') as [parent|] eqn:Hp; simpl.
    + apply IH. apply elem_of_cons in Hv as [->|Hv]; [congruence | done].
    + by eexists.
Qed.

(** A transform that consumes a value whose producer has not been added
    yet makes [add_node] raise KeyError: the order of the traversal is
    not checked, the lookup just fails. *)
Theorem add_node_unknown_producer (t : TransformNode)
  (self : DataflowGraphBuilder.t) (v : PValue) :
  v ∈ inputs t ->
  producer_label v <> full_label t ->
  _node_map self !! producer_label v = None ->
  exists e, add_node t self = Raise e /\ exc_type e = KeyError.
Proof.
  intros Hv Hne Hnone. unfold add_node.
  assert (Hm : <[full_label t := length (store self)]> (_node_map self)
               !! producer_label v = None)
    by (by rewrite lookup_insert_ne).
  destruct (last (_node_stack self)) as [top|].
  - destruct (add_edges_unknown _ (full_label t) _ v Hv Hm
                (alter (append_node (length (store self))) top
                   (store self ++
                    [mkGraphNode (full_label t) (display_name (full_label t))
                       [] []])))
      as (e & -> & He).
    by exists e.
  - destruct (add_edges_unknown _ (full_label t) _ v Hv Hm
                (store self ++
                 [mkGraphNode (full_label t) (display_name (full_label t))
                    [] []]))
      as (e & -> & He).
    by exists e.
Qed.

Lemma add_node_unknown_producer_witness :
  exists e,
    add_node (Transform "A/y" [Sample.x_out] []) DataflowGraphBuilder.init
    = Raise e
    /\ exc_type e = KeyError.
Proof.
  apply (add_node_unknown_producer (Transform "A/y" [Sample.x_out] [])
           DataflowGraphBuilder.init Sample.x_out).
  - simpl. left.
  - discriminate.
  - reflexivity.
Defined.

Lemma collector_fold_samples all evs :
  (forall e, e ∈ evs -> e ∈ all) ->
  forall self : DataflowDataCollector.t,
    (forall l c, self !! l = Some c -> CollectorSpec.is_sample all l c) ->
    forall l c,
      foldl (fun self e => DataflowDataCollector.on_event e self) self evs !! l
      = Some c ->
      CollectorSpec.is_sample all l c.
Proof.
  induction evs as [|e evs IH]; intros Hall self Hself l c; simpl.
  - apply Hself.
  - apply IH; [intros e' He'; apply Hall; by right|]. intros l' c'.
    destruct e as [n|n|n|value n]; simpl; try apply Hself.
    unfold visit_value.
    destruct (pvalue_class_eqb (value_type value) PCollection_class) eqn:Hty;
      [|apply Hself].
    apply pvalue_class_eqb_eq in Hty.
    destruct (decide (full_label n = l')) as [<-|Hne].
    + rewrite lookup_insert_eq. intros [= <-]. exists value, n.
      split_and!; try done; [apply Hall; left|].
      cbn [data]. rewrite length_take. lia.
    + rewrite lookup_insert_ne by done. apply Hself.
Qed.

(** Every record of the mapping that the collector returns is the
    sample of a collection value that the traversal reported for a
    producer with the record's label: at most 25 items, the first ones
    of its sequence, with the count of all. *)
Theorem collector_visit_records (p : Pipeline) (l : string) (c : Collection) :
  DataflowDataCollector.visit p !! l = Some c ->
  exists value producer_node,
    VisitValue value producer_node ∈ pipeline_visit p
    /\ full_label producer_node = l
    /\ value_type value = PCollection_class
    /\ count c = length (get value)
    /\ data c = take 25 (get value)
    /\ length (data c) <= 25.
Proof.
  unfold DataflowDataCollector.visit.
  apply (collector_fold_samples (pipeline_visit p)); [done|].
  intros l' c' Hl. unfold DataflowDataCollector.init in Hl.
  by rewrite lookup_empty in Hl.
Qed.

Lemma collector_visit_records_witness :
  exists value producer_node,
    VisitValue value producer_node ∈ pipeline_visit Sample.pipeline
    /\ full_label producer_node = "A/x"
    /\ value_type value = PCollection_class
    /\ count (mkCollection 3 [VInt 1; VInt 2; VInt 3]) = length (get value)
    /\ data (mkCollection 3 [VInt 1; VInt 2; VInt 3]) = take 25 (get value)
    /\ length (data (mkCollection 3 [VInt 1; VInt 2; VInt 3])) <= 25.
Proof.
  apply (collector_visit_records Sample.pipeline "A/x").
  vm_compute. reflexivity.
Defined.

(** [PTransformExecutor.from_namespace]: it returns an executor for a
    class of the [dataflow] module that inherits from PTransform; when
    the class does not, the message still holds the placeholder, the
    name is never filled in. *)
Theorem ptransform_from_namespace_cases (ns : gmap string PyVal)
  (name : string) (dict : list (string * PyVal)) :
  dataflow_module ns = Some dict ->
  (forall n mro,
     dict_get name dict = VClass n mro -> "PTransform" ∈ mro ->
     PTransformExecutor.from_namespace ns name
     = Ok (PTransformExecutor.mkExecutor (VClass n mro)))
  /\ (forall n mro,
        dict_get name dict = VClass n mro -> "PTransform" ∉ mro ->
        PTransformExecutor.from_namespace ns name
        = Raise (mkException Exception_
                   PTransformExecutor.not_ptransform_message))
  /\ (PTransformExecutor.is_class (dict_get name dict) = false ->
        PTransformExecutor.from_namespace ns name
        = Raise (mkException Exception_
                   (PTransformExecutor.no_class_message name))).
Proof.
  unfold dataflow_module, PTransformExecutor.from_namespace, ns_get.
  destruct (ns !! "dataflow") as [v|]; simpl; [|done].
  destruct v; simpl; try done. intros [= ->]. split_and!.
  - intros n mro -> Hin. simpl. by rewrite bool_decide_eq_true_2.
  - intros n mro -> Hin. simpl. by rewrite bool_decide_eq_false_2.
  - intros Hclass. rewrite Hclass. by rewrite orb_true_r.
Qed.

Lemma ptransform_from_namespace_cases_witness :
  (forall n mro,
     dict_get "Double" [("Double", VClass "Double" ["Double"; "object"])]
     = VClass n mro -> "PTransform" ∈ mro ->
     PTransformExecutor.from_namespace
       {["dataflow" := VModule [("Double", VClass "Double" ["Double"; "object"])]]}
       "Double"
     = Ok (PTransformExecutor.mkExecutor (VClass n mro)))
  /\ (forall n mro,
        dict_get "Double" [("Double", VClass "Double" ["Double"; "object"])]
        = VClass n mro -> "PTransform" ∉ mro ->
        PTransformExecutor.from_namespace
          {["dataflow" := VModule [("Double", VClass "Double" ["Double"; "object"])]]}
          "Double"
        = Raise (mkException Exception_
                   PTransformExecutor.not_ptransform_message))
  /\ (PTransformExecutor.is_class
        (dict_get "Double" [("Double", VClass "Double" ["Double"; "object"])])
      = false ->
        PTransformExecutor.from_namespace
          {["dataflow" := VModule [("Double", VClass "Double" ["Double"; "object"])]]}
          "Double"
        = Raise (mkException Exception_
                   (PTransformExecutor.no_class_message "Double"))).
Proof.
  exact (ptransform_from_namespace_cases
           {["dataflow" := VModule [("Double", VClass "Double" ["Double"; "object"])]]}
           "Double" [("Double", VClass "Double" ["Double"; "object"])] eq_refl).
Defined.

(** ** Further properties of the graph builder *)

Import MoreSpec.

(** The edge list of a graph node is the list of its consumers in the
    order of the traversal, one entry for each value consumed: a
    transform that takes two values of one producer is listed twice. *)
Theorem graph_builder_edge_lists (p : Pipeline) :
  composites_labelled p ->
  producers_first [] (pipeline_applications p) ->
  NoDup (full_label <$> pipeline_applications p) ->
  exists returned forest,
    DataflowGraphBuilder.visit p = Ok returned
    /\ to_graph returned = Some forest
    /\ forall P, P ∈ flat_map graph_nodes forest ->
         graph_edges P = consumers (graph_id P) (pipeline_applications p).
Proof.
  intros Hlab Hprod Hnodup.
  destruct (visit_graph p Hlab Hprod)
    as (self & forest & Hrun & Hvisit & Hgraph & _ & Hviews & _).
  pose proof (run_edges_inv (pipeline_visit p) [] DataflowGraphBuilder.init
                self edges_inv_init) as Hinv.
  rewrite added_pipeline in Hinv by done. simpl in Hinv.
  destruct (Hinv Hnodup Hrun) as [_ _ J3 _].
  exists (_nodes self, store self), forest. split_and!; try done.
  intros P HP.
  assert (HPv : graph_view P ∈ node_view <$> store self)
    by (rewrite <- Hviews; by apply list_elem_of_fmap_2).
  apply list_elem_of_fmap in HPv as (g & Hg & [r Hr]%list_elem_of_lookup).
  injection Hg as Hgid _ Hgedges. rewrite Hgedges, Hgid. by apply (J3 r).
Qed.

Lemma diamond_labelled : composites_labelled diamond.
Proof. repeat constructor. Defined.

Lemma diamond_producers_first :
  producers_first [] (pipeline_applications diamond).
Proof. simpl. repeat constructor. Defined.

Lemma diamond_labels_unique :
  NoDup (full_label <$> pipeline_applications diamond).
Proof. apply (bool_decide_unpack _). vm_compute. exact I. Defined.

Lemma graph_builder_edge_lists_witness :
  exists returned forest,
    DataflowGraphBuilder.visit diamond = Ok returned
    /\ to_graph returned = Some forest
    /\ forall P, P ∈ flat_map graph_nodes forest ->
         graph_edges P = consumers (graph_id P) (pipeline_applications diamond).
Proof.
  exact (graph_builder_edge_lists diamond diamond_labelled
           diamond_producers_first diamond_labels_unique).
Defined.

Example diamond_edges :
  consumers "read" (pipeline_applications diamond) = ["join"; "join"].
Proof. reflexivity. Qed.

Lemma store_grows_refl st : store_grows st st.
Proof. intros r g Hg. exists g. by split_and!. Qed.

Lemma store_grows_trans a b c :
  store_grows a b -> store_grows b c -> store_grows a c.
Proof.
  intros Hab Hbc r g Hg.
  destruct (Hab r g Hg) as (g1 & Hg1 & Hid1 & Hname1 & Hn1 & He1).
  destruct (Hbc r g1 Hg1) as (g2 & Hg2 & Hid2 & Hname2 & Hn2 & He2).
  exists g2. split_and!; [done|congruence|congruence|by etrans..].
Qed.

Lemma store_grows_app st more : store_grows st (st ++ more).
Proof.
  intros r g Hg. exists g. split_and!; try done.
  by apply lookup_app_l_Some.
Qed.

Lemma store_grows_alter f r (st : list GraphNode) :
  (forall g, node_id (f g) = node_id g /\ node_name (f g) = node_name g
             /\ node_nodes g `prefix_of` node_nodes (f g)
             /\ node_edges g `prefix_of` node_edges (f g)) ->
  store_grows st (alter f r st).
Proof.
  intros Hf i g Hg. destruct (decide (r = i)) as [->|Hne].
  - exists (f g). rewrite list_lookup_alter_eq, Hg. split; [done|]. apply Hf.
  - exists g. rewrite list_lookup_alter_ne by done. by split_and!.
Qed.

Lemma append_edge_grows label r (st : list GraphNode) :
  store_grows st (alter (append_edge label) r st).
Proof.
  apply store_grows_alter. intros g. split_and!; try done.
  simpl. by apply prefix_app_r.
Qed.

Lemma append_node_grows child r (st : list GraphNode) :
  store_grows st (alter (append_node child) r st).
Proof.
  apply store_grows_alter. intros g. split_and!; try done.
  simpl. by apply prefix_app_r.
Qed.

Lemma add_edges_grow (m : gmap string ref) label ins :
  forall st st' : list GraphNode,
    for_each (add_edge m label) ins st = Ok st' -> store_grows st st'.
Proof.
  induction ins as [|v ins IH]; intros st st'; simpl.
  - intros [= <-]. apply store_grows_refl.
  - unfold add_edge at 1. destruct (m !! producer_label v) as [parent|];
      simpl; [|done].
    intros Hrun. eapply store_grows_trans; [|by eapply IH].
    apply append_edge_grows.
Qed.

Lemma add_node_grows (t : TransformNode) (self self' : DataflowGraphBuilder.t) r :
  add_node t self = Ok (r, self') -> grows self self'.
Proof.
  unfold add_node.
  destruct (last (_node_stack self)) as [top|].
  - destruct (for_each _ _ _) as [st'|e] eqn:Hrun; simpl; [|done].
    intros [= _ <-]. split; simpl; [done|].
    eapply store_grows_trans; [|by eapply add_edges_grow].
    eapply store_grows_trans; [apply store_grows_app|apply append_node_grows].
  - destruct (for_each _ _ _) as [st'|e] eqn:Hrun; simpl; [|done].
    intros [= _ <-]. split; simpl; [by apply prefix_app_r|].
    eapply store_grows_trans; [apply store_grows_app|by eapply add_edges_grow].
Qed.

Lemma grows_refl self : grows self self.
Proof. split; [done | apply store_grows_refl]. Qed.

Lemma grows_trans a b c : grows a b -> grows b c -> grows a c.
Proof.
  intros [Hn1 Hs1] [Hn2 Hs2]. split; [by etrans | by eapply store_grows_trans].
Qed.

Lemma on_event_grows e (self self' : DataflowGraphBuilder.t) :
  DataflowGraphBuilder.on_event self e = Ok self' -> grows self self'.
Proof.
  destruct e as [n|n|n|v n]; simpl.
  - unfold enter_composite_transform.
    destruct (Nat.eqb (String.length (full_label n)) 0).
    + intros [= <-]. apply grows_refl.
    + destruct (add_node n self) as [[g self1]|e] eqn:Hadd; simpl; [|done].
      intros [= <-]. apply add_node_grows in Hadd as [Hn Hs]. by split.
  - unfold leave_composite_transform.
    destruct (Nat.eqb (String.length (full_label n)) 0).
    + intros [= <-]. apply grows_refl.
    + destruct (_node_stack self); [done|]. intros [= <-].
      split; [done | apply store_grows_refl].
  - unfold visit_transform.
    destruct (add_node n self) as [[g self1]|e] eqn:Hadd; simpl; [|done].
    intros [= <-]. by eapply add_node_grows.
  - intros [= <-]. apply grows_refl.
Qed.

(** Whatever events the builder is fed, it only ever appends: a node
    once created keeps its place, its id and its name, and its children,
    its edges and the top-level list are only extended. *)
Theorem builder_only_appends (evs : list Event)
  (self self' : DataflowGraphBuilder.t) :
  for_each DataflowGraphBuilder.on_event evs self = Ok self' ->
  grows self self'.
Proof.
  revert self. induction evs as [|e evs IH]; intros self; simpl.
  - intros [= <-]. apply grows_refl.
  - destruct (DataflowGraphBuilder.on_event self e) as [self1|err] eqn:Hstep;
      simpl; [|done].
    intros Hrun. eapply grows_trans; [by eapply on_event_grows | by apply IH].
Qed.

Lemma builder_only_appends_witness :
  grows
    (mkBuilder
       [mkGraphNode "A" "A" [1] []; mkGraphNode "A/x" "x" [] []]
       [0] [0] {["A" := 0; "A/x" := 1]})
    (mkBuilder
       [mkGraphNode "A" "A" [1; 2] ["A/y"];
        mkGraphNode "A/x" "x" [] ["A/y"];
        mkGraphNode "A/y" "y" [] ["B"];
        mkGraphNode "B" "B" [] []]
       [0; 3] [] {["A" := 0; "A/x" := 1; "A/y" := 2; "B" := 3]}).
Proof.
  apply (builder_only_appends
           [VisitTransform
              (Transform "A/y"
                 [mkPValue PCollection_class "A/x" [];
                  mkPValue PCollection_class "A" []] []);
            LeaveComposite (Composite "A" [] [] []);
            VisitTransform
              (Transform "B" [mkPValue PCollection_class "A/y" []] [])]).
  vm_compute. reflexivity.
Defined.

Lemma add_edges_raise (m : gmap string ref) label ins :
  forall (st : list GraphNode) e,
    for_each (add_edge m label) ins st = Raise e -> exc_type e = KeyError.
Proof.
  induction ins as [|v ins IH]; intros st e; simpl; [done|].
  unfold add_edge at 1. destruct (m !! producer_label v) as [parent|]; simpl.
  - apply IH.
  - by intros [= <-].
Qed.

Lemma add_node_raise (t : TransformNode) (self : DataflowGraphBuilder.t) e :
  add_node t self = Raise e -> exc_type e = KeyError.
Proof.
  unfold add_node. destruct (last (_node_stack self)) as [top|];
    destruct (for_each _ _ _) as [st'|e'] eqn:Hrun; simpl; try done;
    intros [= <-]; by eapply add_edges_raise.
Qed.

Lemma forest_balanced ts :
  Forall balanced ts ->
  forall self : DataflowGraphBuilder.t,
    match for_each DataflowGraphBuilder.on_event (flat_map visit_node ts) self with
    | Ok self' => _node_stack self' = _node_stack self
    | Raise e => exc_type e = KeyError
    end.
Proof.
  induction 1 as [|t ts Ht _ IH]; intros self; simpl; [done|].
  rewrite for_each_app. specialize (Ht self).
  destruct (for_each _ (visit_node t) self) as [self1|e]; simpl; [|done].
  specialize (IH self1).
  destruct (for_each _ (flat_map visit_node ts) self1) as [self2|e]; [|done].
  congruence.
Qed.

Lemma tree_balanced t : balanced t.
Proof.
  induction t as [l i o | l i o ps IH] using TransformNode_nested_ind;
    intros self.
  - simpl. unfold visit_transform.
    destruct (add_node (Transform l i o) self) as [[r self1]|e] eqn:Hadd; simpl.
    + rewrite for_each_values. by apply add_node_inv in Hadd as (_ & _ & ? & _).
    + by eapply add_node_raise.
  - pose proof (forest_balanced ps IH) as Hps. simpl.
    unfold enter_composite_transform. simpl.
    destruct (Nat.eqb (String.length l) 0) eqn:Hl; simpl.
    + rewrite for_each_app. specialize (Hps self).
      destruct (for_each _ (flat_map visit_node ps) self) as [self1|e];
        simpl; [|done].
      unfold leave_composite_transform. simpl. rewrite Hl. simpl.
      by rewrite for_each_values.
    + destruct (add_node (Composite l i o ps) self) as [[r self1]|e] eqn:Hadd;
        simpl; [|by eapply add_node_raise].
      apply add_node_inv in Hadd as (_ & _ & Hstack & _).
      rewrite for_each_app.
      match goal with |- context [for_each _ (flat_map visit_node ps) ?b] =>
        specialize (Hps b); destruct (for_each _ (flat_map visit_node ps) b)
          as [self2|e]; simpl; [|done] end.
      simpl in Hps. unfold leave_composite_transform. simpl. rewrite Hl, Hps.
      destruct (_node_stack self1 ++ [r]) eqn:Hpush.
      { by apply app_eq_nil in Hpush as [_ ?]. }
      rewrite <- Hpush, removelast_last. simpl. by rewrite for_each_values.
Qed.

(** The traversal of a pipeline can fail in one way only: with the
    KeyError of a producer that is not in the node map; the stack never
    runs empty. *)
Theorem traversal_fails_only_with_key_error (p : Pipeline) (e : PyException) :
  DataflowGraphBuilder.visit p = Raise e -> exc_type e = KeyError.
Proof.
  unfold DataflowGraphBuilder.visit. pose proof (tree_balanced (root p)) as Hp.
  specialize (Hp DataflowGraphBuilder.init). unfold pipeline_visit.
  destruct (for_each _ (visit_node (root p)) _) as [self|e']; simpl; [done|].
  by intros [= <-].
Qed.

Lemma traversal_fails_only_with_key_error_witness :
  exc_type (mkException KeyError "late") = KeyError.
Proof.
  apply (traversal_fails_only_with_key_error backwards).
  vm_compute. reflexivity.
Defined.

Lemma run_producers_first evs :
  forall (self self' : DataflowGraphBuilder.t) known,
    (forall l, is_Some (_node_map self !! l) -> l ∈ known) ->
    for_each DataflowGraphBuilder.on_event evs self = Ok self' ->
    producers_first known (added evs).
Proof.
  assert (Hadd : forall n (self self1 : DataflowGraphBuilder.t) r known,
            (forall l, is_Some (_node_map self !! l) -> l ∈ known) ->
            add_node n self = Ok (r, self1) ->
            Forall (fun v => producer_label v ∈ full_label n :: known) (inputs n)
            /\ forall l, is_Some (_node_map self1 !! l) ->
                 l ∈ full_label n :: known).
  { intros n self self1 r known Hknown Hadd.
    apply add_node_inv in Hadd as (_ & Hm & _ & Hins & _).
    assert (Hin : forall l,
              is_Some (<[full_label n := length (store self)]>
                         (_node_map self) !! l) ->
              l ∈ full_label n :: known).
    { intros l. destruct (decide (full_label n = l)) as [<-|Hne]; [left|].
      rewrite lookup_insert_ne by done. intros Hl. right. by apply Hknown. }
    split.
    - eapply Forall_impl; [exact Hins|]. intros v. apply Hin.
    - intros l. rewrite Hm. apply Hin. }
  induction evs as [|e evs IH]; intros self self' known Hknown; simpl.
  - done.
  - destruct (DataflowGraphBuilder.on_event self e) as [self1|err] eqn:Hstep;
      simpl; [|done].
    intros Hrun. unfold added. simpl. fold (added evs).
    destruct e as [n|n|n|v n]; simpl in *.
    + unfold enter_composite_transform in Hstep.
      destruct (Nat.eqb (String.length (full_label n)) 0).
      * injection Hstep as <-. simpl. by eapply IH.
      * destruct (add_node n self) as [[r self2]|e] eqn:Hn; simpl in Hstep;
          [|done].
        injection Hstep as <-.
        destruct (Hadd _ _ _ _ _ Hknown Hn) as [Hins Hmap].
        simpl. split; [done|]. eapply IH; [|exact Hrun]. exact Hmap.
    + unfold leave_composite_transform in Hstep.
      destruct (Nat.eqb (String.length (full_label n)) 0).
      * injection Hstep as <-. by eapply IH.
      * destruct (_node_stack self); [done|]. injection Hstep as <-.
        eapply IH; [|exact Hrun]. exact Hknown.
    + unfold visit_transform in Hstep.
      destruct (add_node n self) as [[r self2]|e] eqn:Hn; simpl in Hstep;
        [|done].
      injection Hstep as <-.
      destruct (Hadd _ _ _ _ _ Hknown Hn) as [Hins Hmap].
      split; [done|]. by eapply IH.
    + injection Hstep as <-. by eapply IH.
Qed.

(** When the composites carry labels, the traversal succeeds exactly
    when every transform consumes values of itself or of transforms
    visited before it. *)
Theorem visit_succeeds_iff_producers_first (p : Pipeline) :
  composites_labelled p ->
  ((exists returned, DataflowGraphBuilder.visit p = Ok returned)
   <-> producers_first [] (pipeline_applications p)).
Proof.
  intros Hlab. split.
  - intros [returned Hvisit]. unfold DataflowGraphBuilder.visit in Hvisit.
    destruct (for_each _ (pipeline_visit p) _) as [self|e] eqn:Hrun; [|done].
    rewrite <- (added_pipeline p Hlab).
    eapply run_producers_first; [|exact Hrun].
    intros l [r Hl]. unfold DataflowGraphBuilder.init in Hl. simpl in Hl.
    by rewrite lookup_empty in Hl.
  - intros Hprod. destruct (pipeline_runs p Hlab Hprod) as (self & Hrun & _).
    exists (_nodes self, store self). unfold DataflowGraphBuilder.visit.
    by rewrite Hrun.
Qed.

Lemma visit_succeeds_iff_producers_first_witness :
  (exists returned, DataflowGraphBuilder.visit Sample.pipeline = Ok returned)
  <-> producers_first [] (pipeline_applications Sample.pipeline).
Proof.
  exact (visit_succeeds_iff_producers_first Sample.pipeline sample_labelled).
Defined.

Lemma forest_transparent ts :
  Forall transparent ts ->
  forall self : DataflowGraphBuilder.t,
    for_each DataflowGraphBuilder.on_event (flat_map visit_node ts) self
    = for_each DataflowGraphBuilder.on_event
        (flat_map visit_node (flat_map splice ts)) self.
Proof.
  induction 1 as [|t ts Ht _ IH]; intros self; simpl; [done|].
  rewrite flat_map_app, !for_each_app, (Ht self).
  destruct (for_each _ (flat_map visit_node (splice t)) self) as [self1|e];
    simpl; [apply IH | done].
Qed.

Lemma tree_transparent t : transparent t.
Proof.
  induction t as [l i o | l i o ps IH] using TransformNode_nested_ind;
    intros self.
  - simpl. by rewrite (right_id_L [] (++)).
  - pose proof (forest_transparent ps IH) as Hps.
    cbn [splice]. destruct (Nat.eqb (String.length l) 0) eqn:Hl.
    + simpl. unfold enter_composite_transform. simpl. rewrite Hl. simpl.
      rewrite for_each_app, (Hps self).
      destruct (for_each _ (flat_map visit_node (flat_map splice ps)) self)
        as [self1|e]; simpl; [|done].
      unfold leave_composite_transform. simpl. rewrite Hl. simpl.
      apply for_each_values.
    + cbn [flat_map visit_node]. rewrite (right_id_L [] (++)).
      cbn [for_each]. cbn [DataflowGraphBuilder.on_event].
      unfold enter_composite_transform. cbn [full_label]. rewrite Hl.
      change (add_node (Composite l i o (flat_map splice ps)) self)
        with (add_node (Composite l i o ps) self).
      destruct (add_node (Composite l i o ps) self) as [[r self1]|e];
        simpl; [|done].
      rewrite !for_each_app, Hps.
      destruct (for_each _ (flat_map visit_node (flat_map splice ps)) _)
        as [self2|e]; simpl; [|done].
      unfold leave_composite_transform. simpl. rewrite Hl.
      destruct (_node_stack self2); [done|]. simpl.
      by rewrite !for_each_values.
Qed.

Lemma splice_labelled t :
  Forall (fun t' => labelled t' = true) (flat_map applications (splice t)).
Proof.
  induction t as [l i o | l i o ps IH] using TransformNode_nested_ind.
  - by repeat constructor.
  - assert (Hps : Forall (fun t' => labelled t' = true)
                    (flat_map applications (flat_map splice ps))).
    { induction IH as [|t ts Ht _ IHts]; simpl; [constructor|].
      rewrite flat_map_app. apply Forall_app. by split. }
    cbn [splice]. destruct (Nat.eqb (String.length l) 0) eqn:Hl; [done|].
    simpl. rewrite (right_id_L [] (++)). constructor; [|done].
    simpl. by rewrite Hl.
Qed.

(** A composite without a label is transparent: the builder returns for
    a pipeline what it returns for the pipeline in which the parts of
    every such composite stand in its place, and in that pipeline every
    composite carries a label. *)
Theorem unlabelled_composites_are_transparent (p : Pipeline) :
  DataflowGraphBuilder.visit p = DataflowGraphBuilder.visit (splice_pipeline p)
  /\ composites_labelled (splice_pipeline p).
Proof.
  split.
  - unfold DataflowGraphBuilder.visit, pipeline_visit, root, splice_pipeline.
    simpl. rewrite !for_each_app.
    rewrite (forest_transparent (root_parts p)); [done|].
    apply Forall_forall. intros t _. apply tree_transparent.
  - unfold composites_labelled, pipeline_applications, splice_pipeline. simpl.
    induction (root_parts p) as [|t ts IH]; simpl; [constructor|].
    rewrite flat_map_app. apply Forall_app. split; [apply splice_labelled|done].
Qed.

Example unlabelled_graph :
  exists returned,
    DataflowGraphBuilder.visit unlabelled = Ok returned
    /\ to_graph returned
       = Some [Node "read" "read" [] ["count"]; Node "count" "count" [] []].
Proof. eexists. split; vm_compute; reflexivity. Qed.

(** ** Further properties of the collector *)

Lemma collector_fold_other evs l : forall self : DataflowDataCollector.t,
  (forall e, e ∈ evs -> ~ collection_event l e) ->
  foldl (fun self e => DataflowDataCollector.on_event e self) self evs !! l
  = self !! l.
Proof.
  induction evs as [|e evs IH]; intros self Hno; simpl; [done|].
  rewrite IH by (intros e' He'; apply Hno; by right).
  assert (He : ~ collection_event l e) by (apply Hno; left).
  destruct e as [n|n|n|value n]; simpl; try done.
  unfold visit_value.
  destruct (pvalue_class_eqb (value_type value) PCollection_class) eqn:Hty;
    [|done].
  apply pvalue_class_eqb_eq in Hty.
  apply lookup_insert_ne. intros Heq. apply He. by split.
Qed.

Lemma collector_fold_some evs l : forall self : DataflowDataCollector.t,
  is_Some (self !! l) \/ (exists e, e ∈ evs /\ collection_event l e) ->
  is_Some (foldl (fun self e => DataflowDataCollector.on_event e self)
             self evs !! l).
Proof.
  induction evs as [|e evs IH]; intros self Hsome; simpl.
  - destruct Hsome as [?|(e & He & _)]; [done | by apply elem_of_nil in He].
  - apply IH. destruct Hsome as [Hself|(e' & He' & Hev)].
    + left. destruct e as [n|n|n|value n]; simpl; try done.
      unfold visit_value. destruct (pvalue_class_eqb _ _); [|done].
      destruct (decide (full_label n = l)) as [<-|Hne].
      * rewrite lookup_insert_eq. eauto.
      * by rewrite lookup_insert_ne.
    + apply elem_of_cons in He' as [->|He']; [|right; eauto].
      left. destruct e as [n|n|n|value n]; simpl in *; try done.
      destruct Hev as [Hty <-]. unfold visit_value.
      apply pvalue_class_eqb_eq in Hty. rewrite Hty, lookup_insert_eq. eauto.
Qed.

Lemma collector_visit_event (p : Pipeline) l c :
  DataflowDataCollector.visit p !! l = Some c ->
  exists value n,
    VisitValue value n ∈ pipeline_visit p
    /\ full_label n = l /\ value_type value = PCollection_class.
Proof.
  intros Hc.
  assert (Hinit : forall l' c',
            DataflowDataCollector.init !! l' = Some c' ->
            CollectorSpec.is_sample (pipeline_visit p) l' c').
  { intros l' c' Hl. unfold DataflowDataCollector.init in Hl.
    by rewrite lookup_empty in Hl. }
  destruct (collector_fold_samples (pipeline_visit p) (pipeline_visit p)
              (fun e He => He) DataflowDataCollector.init Hinit l c Hc)
    as (value & n & Hin & Hl & Hty & _).
  by exists value, n.
Qed.

(** The mapping that the collector returns has an entry under a label
    exactly when the traversal reports a collection value for a producer
    with that label. *)
Theorem collector_domain (p : Pipeline) (l : string) :
  is_Some (DataflowDataCollector.visit p !! l)
  <-> exists e, e ∈ pipeline_visit p /\ collection_event l e.
Proof.
  split.
  - intros [c Hc].
    destruct (collector_visit_event p l c Hc) as (value & n & Hin & Hl & Hty).
    by exists (VisitValue value n).
  - intros Hev. unfold DataflowDataCollector.visit.
    apply collector_fold_some. by right.
Qed.

(** The samples are keyed by the label of the producer alone, so of the
    collection values that one producer hands out only the one reported
    last is kept. *)
Theorem collector_keeps_last (p : Pipeline) (pre post : list Event)
  (value : PValue) (producer_node : TransformNode) :
  pipeline_visit p = pre ++ VisitValue value producer_node :: post ->
  value_type value = PCollection_class ->
  (forall e, e ∈ post -> ~ collection_event (full_label producer_node) e) ->
  DataflowDataCollector.visit p !! full_label producer_node
  = Some (sample_of value).
Proof.
  intros Hevs Hty Hpost. unfold DataflowDataCollector.visit.
  rewrite Hevs, foldl_app. simpl.
  rewrite collector_fold_other by done.
  unfold visit_value. apply pvalue_class_eqb_eq in Hty. rewrite Hty.
  apply lookup_insert_eq.
Qed.

Lemma collector_keeps_last_witness :
  DataflowDataCollector.visit diamond !! "read" = Some (sample_of side_out).
Proof.
  apply (collector_keeps_last diamond
           [EnterComposite (root diamond);
            VisitTransform (Transform "read" [] [read_out; side_out]);
            VisitValue read_out (Transform "read" [] [read_out; side_out])]
           [VisitTransform (Transform "join" [read_out; side_out] []);
            LeaveComposite (root diamond)]
           side_out (Transform "read" [] [read_out; side_out])).
  - reflexivity.
  - reflexivity.
  - intros e He Hev. apply elem_of_cons in He as [->|He]; [exact Hev|].
    apply list_elem_of_singleton in He as ->. exact Hev.
Defined.

Lemma expected_ids t : forall n,
  (fun s : Shape => s.1.1) <$> expected n t = full_label <$> applications t.
Proof.
  induction t as [l i o | l i o ps IH] using TransformNode_nested_ind;
    intros n.
  - done.
  - rewrite expected_composite. simpl. f_equal.
    generalize (S n). induction IH as [|t ts Ht _ IHts]; intros m; simpl.
    + done.
    + by rewrite !fmap_app, Ht, IHts.
Qed.

Lemma expected_forest_ids ts n :
  (fun s : Shape => s.1.1) <$> expected_forest n ts
  = full_label <$> flat_map applications ts.
Proof.
  revert n. induction ts as [|t ts IH]; intros n; simpl; [done|].
  by rewrite !fmap_app, expected_ids, IH.
Qed.

Lemma value_events t value n :
  VisitValue value n ∈ visit_node t -> n ∈ applications t.
Proof.
  assert (Hvals : forall t' outs,
            VisitValue value n ∈ map (fun v => VisitValue v t') outs -> n = t').
  { intros t' outs. rewrite list_elem_of_In, in_map_iff.
    by intros (v & [= _ <-] & _). }
  induction t as [l i o | l i o ps IH] using TransformNode_nested_ind; simpl.
  - intros [?|Hin]%elem_of_cons; [done|]. apply Hvals in Hin as ->. left.
  - intros [?|Hin]%elem_of_cons; [done|].
    apply elem_of_app in Hin as [Hin|Hin].
    + right. induction IH as [|t ts Ht _ IHts]; simpl in *.
      * by apply elem_of_nil in Hin.
      * apply elem_of_app in Hin as [Hin|Hin]; apply elem_of_app; eauto.
    + apply elem_of_cons in Hin as [?|Hin]; [done|].
      apply Hvals in Hin as ->. left.
Qed.

Lemma value_events_pipeline (p : Pipeline) value n :
  VisitValue value n ∈ pipeline_visit p -> n ∈ pipeline_applications p.
Proof.
  unfold pipeline_visit, root, pipeline_applications. simpl.
  intros [?|Hin]%elem_of_cons; [done|].
  apply elem_of_app in Hin as [Hin|Hin].
  - induction (root_parts p) as [|t ts IH]; simpl in *.
    + by apply elem_of_nil in Hin.
    + apply elem_of_app in Hin as [Hin|Hin]; apply elem_of_app;
        [left; by apply (value_events t value n) | right; by apply IH].
  - by apply list_elem_of_singleton in Hin.
Qed.

(** The samples can be joined onto the graph: every key of the mapping
    that the collector returns is the identifier of a node of the graph
    that the builder returns for the same pipeline. *)
Theorem samples_keyed_by_graph_nodes (p : Pipeline) :
  composites_labelled p ->
  producers_first [] (pipeline_applications p) ->
  exists returned forest,
    DataflowGraphBuilder.visit p = Ok returned
    /\ to_graph returned = Some forest
    /\ forall l c,
         DataflowDataCollector.visit p !! l = Some c ->
         exists g, g ∈ flat_map graph_nodes forest /\ graph_id g = l.
Proof.
  intros Hlab Hprod.
  destruct (visit_graph p Hlab Hprod)
    as (self & forest & Hrun & Hvisit & Hgraph & _ & Hviews & _).
  destruct (pipeline_runs p Hlab Hprod) as (self' & Hrun' & _ & Hsh).
  rewrite Hrun in Hrun'. injection Hrun' as <-.
  assert (Hids : graph_id <$> flat_map graph_nodes forest
                 = full_label <$> pipeline_applications p).
  { rewrite (view_ids _ _ Hviews). unfold pipeline_applications.
    rewrite <- (expected_forest_ids (root_parts p) 0), <- Hsh.
    by rewrite <- list_fmap_compose. }
  exists (_nodes self, store self), forest. split_and!; try done.
  intros l c Hc.
  destruct (collector_visit_event p l c Hc) as (value & n & Hin & Hl & _).
  apply (value_events_pipeline p value n) in Hin.
  assert (Hg : l ∈ graph_id <$> flat_map graph_nodes forest).
  { rewrite Hids, <- Hl. by apply list_elem_of_fmap_2. }
  apply list_elem_of_fmap in Hg as (g & -> & Hg). by exists g.
Qed.

Lemma samples_keyed_by_graph_nodes_witness :
  exists returned forest,
    DataflowGraphBuilder.visit Sample.pipeline = Ok returned
    /\ to_graph returned = Some forest
    /\ forall l c,
         DataflowDataCollector.visit Sample.pipeline !! l = Some c ->
         exists g, g ∈ flat_map graph_nodes forest /\ graph_id g = l.
Proof.
  exact (samples_keyed_by_graph_nodes Sample.pipeline
           sample_labelled sample_producers_first).
Defined.

(** ** Further properties of the catalog *)

Lemma add_source_usable (name : string) (source : PyVal)
  (self : DataflowLocalCatalog.t) (w : World) :
  usable_source w name ->
  DataflowLocalCatalog.add_source name source self w
  = Ok (DataflowLocalCatalog.mkCatalog
          (<[name := match ns_get name (user_ns w) with
                     | VList l => VListSource l
                     | _ => source
                     end]> (DataflowLocalCatalog.sources self))
          (DataflowLocalCatalog.sinks self)).
Proof.
  unfold usable_source, DataflowLocalCatalog.add_source, ns_get.
  intros [->|[->|[l ->]]]; done.
Qed.

Lemma add_source_unusable (name : string) (source : PyVal)
  (self : DataflowLocalCatalog.t) (w : World) :
  ~ usable_source w name ->
  DataflowLocalCatalog.add_source name source self w
  = Raise (mkException TypeError
             (dquote ++ name ++ dquote ++ " does not represent a list")%string).
Proof.
  unfold usable_source, DataflowLocalCatalog.add_source, ns_get.
  intros Hno. destruct (user_ns w !! name) as [v|]; [|tauto].
  destruct v; simpl; try done; [tauto|]. destruct Hno. eauto.
Qed.

Lemma init_sinks_spec names :
  forall (self self' : DataflowLocalCatalog.t) (w w' : World),
    init_sinks names self w = (self', w') ->
    lists w' = lists w ++ replicate (length names) []
    /\ stderr w' = stderr w
    /\ DataflowLocalCatalog.sources self' = DataflowLocalCatalog.sources self
    /\ (forall n, n ∉ names ->
          user_ns w' !! n = user_ns w !! n
          /\ DataflowLocalCatalog.sinks self' !! n
             = DataflowLocalCatalog.sinks self !! n)
    /\ (forall n, n ∈ names ->
          exists l,
            length (lists w) <= l < length (lists w) + length names
            /\ user_ns w' !! n = Some (VList l)
            /\ DataflowLocalCatalog.sinks self' !! n = Some (VListSink l)).
Proof.
  induction names as [|name names IH]; intros self self' w w'; simpl.
  - intros [= <- <-]. rewrite (right_id_L [] (++)). split_and!; try done.
    intros n Hn. by apply elem_of_nil in Hn.
  - intros Hrest.
    apply IH in Hrest as (Hlists & Herr & Hsrc & Hout & Hin). simpl in *.
    split_and!; try done.
    + by rewrite Hlists, <- (assoc_L (++)).
    + intros n Hn. apply not_elem_of_cons in Hn as [Hne Hn].
      destruct (Hout n Hn) as [Hns Hsinks].
      by rewrite Hns, Hsinks, !lookup_insert_ne.
    + intros n Hn. destruct (decide (n ∈ names)) as [Hnames|Hnames].
      * destruct (Hin n Hnames) as (l & Hl & Hns & Hsink).
        exists l. rewrite length_app in Hl. simpl in Hl.
        split_and!; [lia|lia|done..].
      * apply elem_of_cons in Hn as [->|Hn]; [|done].
        destruct (Hout name Hnames) as [Hns Hsinks].
        exists (length (lists w)).
        rewrite Hns, Hsinks, !lookup_insert_eq. split_and!; [lia|lia|done..].
Qed.

Lemma init_sources_spec `{Collaborators} (catalog : TemplateCatalog)
  (args : Args) (w : World) names :
  Forall (fun n => callable (sources_get catalog n) = false) names ->
  Forall (usable_source w) names ->
  forall self : DataflowLocalCatalog.t,
    exists self',
      init_sources names catalog args self w = (Ok self', w)
      /\ DataflowLocalCatalog.sinks self' = DataflowLocalCatalog.sinks self
      /\ (forall n, n ∈ names ->
            DataflowLocalCatalog.sources self' !! n
            = Some (resolved_source catalog w n))
      /\ (forall n, n ∉ names ->
            DataflowLocalCatalog.sources self' !! n
            = DataflowLocalCatalog.sources self !! n).
Proof.
  intros Hcall Huse. induction Hcall as [|name names Hname _ IH];
    intros self; simpl.
  - exists self. split_and!; try done. intros n Hn. by apply elem_of_nil in Hn.
  - apply Forall_cons in Huse as [Huse1 Huse]. rewrite Hname.
    rewrite (add_source_usable _ _ _ _ Huse1).
    destruct (IH Huse
                (DataflowLocalCatalog.mkCatalog
                   (<[name := match ns_get name (user_ns w) with
                              | VList l => VListSource l
                              | _ => sources_get catalog name
                              end]> (DataflowLocalCatalog.sources self))
                   (DataflowLocalCatalog.sinks self)))
      as (self' & Hrun & Hsinks & Hin & Hout).
    exists self'. simpl in *. split_and!; try done.
    + intros n Hn. destruct (decide (n ∈ names)) as [Hnames|Hnames].
      * by apply Hin.
      * apply elem_of_cons in Hn as [->|Hn]; [|done].
        rewrite (Hout name Hnames), lookup_insert_eq. done.
    + intros n Hn. apply not_elem_of_cons in Hn as [Hne Hn].
      by rewrite (Hout n Hn), lookup_insert_ne.
Qed.

Lemma init_sources_rejects `{Collaborators} (catalog : TemplateCatalog)
  (args : Args) (w : World) good bad rest :
  Forall (fun n => callable (sources_get catalog n) = false)
    (good ++ bad :: rest) ->
  Forall (usable_source w) good ->
  ~ usable_source w bad ->
  forall self : DataflowLocalCatalog.t,
    init_sources (good ++ bad :: rest) catalog args self w
    = (Raise (mkException TypeError
                (dquote ++ bad ++ dquote ++ " does not represent a list")%string),
       w).
Proof.
  intros Hcall Huse Hbad. induction Huse as [|name good Hname _ IH];
    intros self; simpl in *.
  - apply Forall_cons in Hcall as [-> _].
    by rewrite (add_source_unusable _ _ _ _ Hbad).
  - apply Forall_cons in Hcall as [-> Hcall].
    rewrite (add_source_usable _ _ _ _ Hname). by apply IH.
Qed.

(** Constructing the catalog from a template whose sources are not
    factories, in a namespace that binds nothing, None or a list under
    each source name: every source name gets the list bound under it, or
    else the declared source; every sink name is bound to a new empty
    list and gets a sink over that list; the sources are resolved before
    any sink is bound; no other variable and no list that existed is
    touched. *)
Theorem new_catalog_builds `{Collaborators} (catalog : TemplateCatalog)
  (args : Args) (w : World) :
  Forall (fun n => callable (sources_get catalog n) = false)
    (source_names catalog) ->
  Forall (usable_source w) (source_names catalog) ->
  exists self w',
    new_catalog (Some catalog) args w = (Ok self, w')
    /\ (forall n, n ∈ source_names catalog ->
          DataflowLocalCatalog.sources self !! n
          = Some (resolved_source catalog w n))
    /\ (forall n, n ∈ sink_names catalog ->
          exists l,
            length (lists w) <= l
            /\ user_ns w' !! n = Some (VList l)
            /\ lists w' !! l = Some []
            /\ DataflowLocalCatalog.sinks self !! n = Some (VListSink l))
    /\ (forall n, n ∉ sink_names catalog -> user_ns w' !! n = user_ns w !! n)
    /\ (forall r, r < length (lists w) -> lists w' !! r = lists w !! r)
    /\ stderr w' = stderr w.
Proof.
  intros Hcall Huse. unfold new_catalog.
  destruct (init_sources_spec catalog args w _ Hcall Huse
              DataflowLocalCatalog.empty)
    as (self1 & -> & Hsinks1 & Hsrc & _).
  destruct (init_sinks (sink_names catalog) self1 w) as [self w'] eqn:Hinit.
  apply init_sinks_spec in Hinit as (Hlists & Herr & Hsources & Hout & Hin).
  exists self, w'. split_and!; try done.
  - intros n Hn. rewrite Hsources. by apply Hsrc.
  - intros n Hn. destruct (Hin n Hn) as (l & Hl & Hns & Hsink).
    exists l. split_and!; [lia|done| |done].
    rewrite Hlists, lookup_app_r by lia. apply lookup_replicate_2. lia.
  - intros n Hn. by apply Hout.
  - intros r Hr. by rewrite Hlists, lookup_app_l.
Qed.

Lemma template_not_callable :
  Forall (fun n => callable (sources_get template n) = false)
    (source_names template).
Proof. by repeat constructor. Defined.

Lemma session_usable : Forall (usable_source session) (source_names template).
Proof.
  apply Forall_cons_2; [|apply Forall_cons_2; [|apply Forall_nil_2]].
  - right. right. exists 0. reflexivity.
  - left. reflexivity.
Defined.

Lemma new_catalog_builds_witness :
  exists self w',
    @new_catalog quiet (Some template) [] session = (Ok self, w')
    /\ (forall n, n ∈ source_names template ->
          DataflowLocalCatalog.sources self !! n
          = Some (resolved_source template session n))
    /\ (forall n, n ∈ sink_names template ->
          exists l,
            length (lists session) <= l
            /\ user_ns w' !! n = Some (VList l)
            /\ lists w' !! l = Some []
            /\ DataflowLocalCatalog.sinks self !! n = Some (VListSink l))
    /\ (forall n, n ∉ sink_names template ->
          user_ns w' !! n = user_ns session !! n)
    /\ (forall r, r < length (lists session) ->
          lists w' !! r = lists session !! r)
    /\ stderr w' = stderr session.
Proof.
  exact (@new_catalog_builds quiet template [] session
           template_not_callable session_usable).
Defined.

(** When the namespace binds something that is neither None nor a list
    under a source name, constructing the catalog raises the TypeError
    of the first such name and leaves the session as it was: no sink
    variable has been rebound. *)
Theorem new_catalog_rejects `{Collaborators} (catalog : TemplateCatalog)
  (args : Args) (w : World) good bad rest :
  source_names catalog = good ++ bad :: rest ->
  Forall (fun n => callable (sources_get catalog n) = false)
    (source_names catalog) ->
  Forall (usable_source w) good ->
  ~ usable_source w bad ->
  new_catalog (Some catalog) args w
  = (Raise (mkException TypeError
              (dquote ++ bad ++ dquote ++ " does not represent a list")%string),
     w).
Proof.
  intros Hnames Hcall Huse Hbad. unfold new_catalog. rewrite Hnames in *.
  by rewrite (init_sources_rejects catalog args w good bad rest Hcall Huse Hbad).
Qed.

Lemma new_catalog_rejects_witness :
  @new_catalog quiet (Some template) []
    (mkWorld {["lookup" := VInt 5]} [] [])
  = (Raise (mkException TypeError
              (dquote ++ "lookup" ++ dquote ++ " does not represent a list")%string),
     mkWorld {["lookup" := VInt 5]} [] []).
Proof.
  apply (@new_catalog_rejects quiet template []
           (mkWorld {["lookup" := VInt 5]} [] []) ["in"] "lookup" []).
  - reflexivity.
  - by repeat constructor.
  - apply Forall_cons_2; [left; reflexivity | apply Forall_nil_2].
  - intros [Hu|[Hu|[l Hu]]]; vm_compute in Hu; discriminate.
Defined.

(** What a sink hands over: after the sink of a name was added and items
    were written through it, a source added under the same name reads
    the written items, whatever source was handed in, and whatever the
    name was bound to before. *)
Theorem sink_output_feeds_source (name : string) (source : PyVal)
  (self later : DataflowLocalCatalog.t) (w : World) (items : list PyVal) :
  let data := length (lists w) in
  let w' :=
    DataflowLocalCatalog.write_all (VListSink data) items
      (DataflowLocalCatalog.add_sink name self w).2 in
  DataflowLocalCatalog.sinks (DataflowLocalCatalog.add_sink name self w).1
    !! name = Some (VListSink data)
  /\ DataflowLocalCatalog.add_source name source later w'
     = Ok (DataflowLocalCatalog.mkCatalog
             (<[name := VListSource data]> (DataflowLocalCatalog.sources later))
             (DataflowLocalCatalog.sinks later))
  /\ DataflowLocalCatalog.read (VListSource data) w' = Some items.
Proof.
  intros data w'. subst w'.
  change (DataflowLocalCatalog.add_sink name self w).2
    with (mkWorld (<[name := VList data]> (user_ns w)) (lists w ++ [[]])
            (stderr w)).
  set (w1 := mkWorld (<[name := VList data]> (user_ns w)) (lists w ++ [[]])
               (stderr w)).
  destruct (write_all_list data items w1 []) as (Hl & Hns & _).
  { subst w1 data. simpl. by rewrite lookup_app_r, Nat.sub_diag. }
  split_and!.
  - simpl. by rewrite lookup_insert_eq.
  - unfold DataflowLocalCatalog.add_source, ns_get. rewrite Hns. subst w1.
    simpl. by rewrite lookup_insert_eq.
  - exact Hl.
Qed.

(** The catalog of the ptransform command when the input variable holds
    a list: the source reads that list, the sink writes to a new list
    that the output variable is rebound to, and writing through the sink
    never changes what the source reads, also when input and output are
    the same variable. *)
Theorem ptransform_input_survives_output (input output : string) (w : World)
  (l : ref) (old : list PyVal) :
  user_ns w !! input = Some (VList l) ->
  lists w !! l = Some old ->
  exists catalog w',
    PTransformExecutor.execute_catalog input (Some output) w = (Ok catalog, w')
    /\ DataflowLocalCatalog.sources catalog !! input = Some (VListSource l)
    /\ DataflowLocalCatalog.sinks catalog !! output
       = Some (VListSink (length (lists w)))
    /\ user_ns w' !! output = Some (VList (length (lists w)))
    /\ forall items,
         let w'' :=
           DataflowLocalCatalog.write_all (VListSink (length (lists w)))
             items w' in
         DataflowLocalCatalog.read (VListSource l) w'' = Some old
         /\ DataflowLocalCatalog.read (VListSource (length (lists w))) w''
            = Some items.
Proof.
  intros Hns Hold. pose proof (lookup_lt_Some _ _ _ Hold) as Hlt.
  unfold PTransformExecutor.execute_catalog,
    DataflowLocalCatalog.add_source, ns_get.
  rewrite Hns. simpl. eexists _, _. split; [reflexivity|]. simpl.
  split_and!.
  - by rewrite lookup_insert_eq.
  - by rewrite lookup_insert_eq.
  - by rewrite lookup_insert_eq.
  - intros items.
    set (w1 := mkWorld (<[output := VList (length (lists w))]> (user_ns w))
                 (lists w ++ [[]]) (stderr w)).
    destruct (write_all_list (length (lists w)) items w1 [])
      as (Hl & _ & Hother).
    { subst w1. simpl. by rewrite lookup_app_r, Nat.sub_diag. }
    split; [|done]. simpl. rewrite Hother by lia. subst w1. simpl.
    by rewrite lookup_app_l.
Qed.

Lemma ptransform_input_survives_output_witness :
  exists catalog w',
    PTransformExecutor.execute_catalog "in" (Some "in") session
    = (Ok catalog, w')
    /\ DataflowLocalCatalog.sources catalog !! "in" = Some (VListSource 0)
    /\ DataflowLocalCatalog.sinks catalog !! "in"
       = Some (VListSink (length (lists session)))
    /\ user_ns w' !! "in" = Some (VList (length (lists session)))
    /\ forall items,
         let w'' :=
           DataflowLocalCatalog.write_all (VListSink (length (lists session)))
             items w' in
         DataflowLocalCatalog.read (VListSource 0) w''
         = Some [VInt 1; VInt 2; VInt 3]
         /\ DataflowLocalCatalog.read (VListSource (length (lists session))) w''
            = Some items.
Proof.
  apply (ptransform_input_survives_output "in" "in" session 0
           [VInt 1; VInt 2; VInt 3]); reflexivity.
Defined.

(** The ptransform command on an input variable that holds something
    other than None or a list: the TypeError of add_source is printed,
    None is returned, and the session is otherwise as before; the output
    variable has not been rebound. *)
Theorem ptransform_rejected_input_binds_nothing `{Collaborators}
  (line : string) (args : PTransformArgs) (executor : PTransformExecutor.t)
  (w : World) :
  parse_ptransform line = Some args ->
  PTransformExecutor.from_namespace (user_ns w) (args_name args) = Ok executor ->
  ~ usable_source w (args_input args) ->
  ptransform line w
  = (Ok None,
     mkWorld (user_ns w) (lists w)
       (stderr w ++
        [(dquote ++ args_input args ++ dquote ++ " does not represent a list")%string])).
Proof.
  intros Hparse Hfrom Hbad.
  unfold ptransform, ptransform_try, PTransformExecutor.execute,
    PTransformExecutor.execute_catalog.
  rewrite Hparse, Hfrom.
  by rewrite (add_source_unusable _ _ _ _ Hbad).
Qed.

Lemma ptransform_rejected_input_binds_nothing_witness :
  @ptransform quiet "run"
    (mkWorld {["in" := VInt 5;
               "dataflow" :=
                 VModule [("Double",
                           VClass "Double" ["Double"; "PTransform"; "object"])]]}
       [] [])
  = (Ok None,
     mkWorld {["in" := VInt 5;
               "dataflow" :=
                 VModule [("Double",
                           VClass "Double" ["Double"; "PTransform"; "object"])]]}
       []
       [(dquote ++ "in" ++ dquote ++ " does not represent a list")%string]).
Proof.
  apply (@ptransform_rejected_input_binds_nothing quiet "run"
           (mkPTransformArgs "Double" "in" (Some "out"))
           (PTransformExecutor.mkExecutor
              (VClass "Double" ["Double"; "PTransform"; "object"]))).
  - reflexivity.
  - vm_compute. reflexivity.
  - intros [Hu|[Hu|[l Hu]]]; vm_compute in Hu; discriminate.
Defined.

(** The ptransform command when the construction of the pipeline raises
    and leaves the session alone: the output variable has already been
    rebound to a new empty list (what it held is no longer reachable
    through it).  When the message of the error is a string it is
    printed and None is returned; otherwise the write raises and that
    exception leaves the magic, the variable rebound all the same. *)
Theorem ptransform_failed_run_rebinds_output `{Collaborators}
  (line : string) (args : PTransformArgs) (executor : PTransformExecutor.t)
  (w : World) (e : PyException) (out : string) :
  parse_ptransform line = Some args ->
  args_output args = Some out ->
  PTransformExecutor.from_namespace (user_ns w) (args_name args) = Ok executor ->
  usable_source w (args_input args) ->
  (forall source sink w1,
     build_transform_pipeline (PTransformExecutor._cls executor) source sink w1
     = (Raise e, w1)) ->
  ptransform line w
  = match message e with
    | VStr s =>
        (Ok None,
         mkWorld (<[out := VList (length (lists w))]> (user_ns w))
           (lists w ++ [[]]) (stderr w ++ [s]))
    | v =>
        (Raise (stderr_refuses v),
         mkWorld (<[out := VList (length (lists w))]> (user_ns w))
           (lists w ++ [[]]) (stderr w))
    end.
Proof.
  intros Hparse Hout Hfrom Huse Hfail.
  unfold ptransform, ptransform_try, PTransformExecutor.execute,
    PTransformExecutor.execute_catalog.
  rewrite Hparse, Hfrom, Hout.
  rewrite (add_source_usable _ _ _ _ Huse). simpl.
  rewrite Hfail. unfold report. by destruct (message e).
Qed.

Lemma ptransform_failed_run_rebinds_output_witness :
  @ptransform broken_engine "run" session
  = (Ok None,
     mkWorld (<["out" := VList 2]> (user_ns session))
       (lists session ++ [[]]) ["no runner"]).
Proof.
  apply (@ptransform_failed_run_rebinds_output broken_engine "run"
           (mkPTransformArgs "Double" "in" (Some "out"))
           (PTransformExecutor.mkExecutor
              (VClass "Double" ["Double"; "PTransform"; "object"]))
           session (mkException Exception_ "no runner") "out").
  - reflexivity.
  - reflexivity.
  - vm_compute. reflexivity.
  - right. right. exists 0. reflexivity.
  - reflexivity.
Defined.

(** The dataflow command when the catalog of the callback names a source
    whose variable holds something other than None or a list: the
    TypeError is printed and None is returned whatever the callback and
    the engine would do, and the session is otherwise as before; no sink
    variable has been rebound. *)
Theorem dataflow_rejected_source_binds_nothing `{Collaborators}
  (line : string) (args : Args) (executor : DataflowExecutor.t)
  (catalog : TemplateCatalog) (w : World) good bad rest :
  DataflowExecutor.from_namespace (user_ns w) = Ok executor ->
  parse_dataflow (DataflowExecutor._create_dataflow executor) line
  = Some args ->
  DataflowExecutor._catalog executor = Some catalog ->
  source_names catalog = good ++ bad :: rest ->
  Forall (fun n => callable (sources_get catalog n) = false)
    (source_names catalog) ->
  Forall (usable_source w) good ->
  ~ usable_source w bad ->
  dataflow line w
  = (Ok None,
     mkWorld (user_ns w) (lists w)
       (stderr w ++
        [(dquote ++ bad ++ dquote ++ " does not represent a list")%string])).
Proof.
  intros Hfrom Hparse Hcat Hnames Hcall Huse Hbad.
  unfold dataflow, dataflow_try, DataflowExecutor.execute,
    DataflowExecutor._run, new_catalog.
  rewrite Hfrom, Hparse, Hcat. rewrite Hnames in *.
  by rewrite (init_sources_rejects catalog args w good bad rest Hcall Huse Hbad).
Qed.

Lemma dataflow_rejected_source_binds_nothing_witness :
  @dataflow templated "run" notebook
  = (Ok None,
     mkWorld (user_ns notebook) (lists notebook)
       (stderr notebook ++
        [(dquote ++ "lookup" ++ dquote ++ " does not represent a list")%string])).
Proof.
  apply (@dataflow_rejected_source_binds_nothing templated "run" []
           (DataflowExecutor.mkExecutor
              (VFunction "dataflow" ["pipeline"; "catalog"; "args"])
              (Some template))
           template notebook ["in"] "lookup" []).
  - vm_compute. reflexivity.
  - reflexivity.
  - reflexivity.
  - reflexivity.
  - by repeat constructor.
  - apply Forall_cons_2; [left; reflexivity | apply Forall_nil_2].
  - intros [Hu|[Hu|[l Hu]]]; vm_compute in Hu; discriminate.
Defined.
